(** * Minimum Hamming distance: exact search, LSH approximation, evaluation

    A shallow embedding of [min_hamming.py], [min_hamming_LSH.py] and
    [comparison.py], followed by the properties of the specification that
    were checked against it.

    Conventions.
    - A Python [int] is a [Z]; a binary vector ([list[int]]) is a [list Z].
    - A raised exception is the [Err] branch of [result]; the payload keeps
      the exception class and its message.
    - The process-wide random source is an explicit tape of draws that is
      threaded through every randomized function.
    - [math.log2] is the C library's [log2]; it is a parameter of the
      development ([libm_log2]), the rest of the float layer is binary64.
    - A Python [float] is a binary64 number (a primitive float); the
      statistics of the evaluation harness are computed with the binary64
      operations, whose rounding is followed on their specification. *)

From Stdlib Require Import ZArith Bool String List Lia Permutation Sorted.
From Stdlib Require Import Floats Uint63.
Import ListNotations.

Local Open Scope Z_scope.

(* ------------------------------------------------------------------ *)
(** ** Exceptions and the error monad *)

Inductive exn : Type :=
| IndexError (msg : string)
| ValueError (msg : string)
| ZeroDivisionError (msg : string)
| OverflowError (msg : string)
| TypeError (msg : string).

Inductive result (A : Type) : Type :=
| Ok (a : A)
| Err (e : exn).

Arguments Ok {A} a.
Arguments Err {A} e.

Definition bind {A B : Type} (c : result A) (k : A -> result B) : result B :=
  match c with
  | Ok a => k a
  | Err e => Err e
  end.

Notation "x <- c ;; k" := (bind c (fun x => k))
  (at level 61, c at next level, right associativity).
Notation "' pat <- c ;; k" := (bind c (fun x => match x with pat => k end))
  (at level 61, pat pattern, c at next level, right associativity).

(** [for x in xs: st = body(x, st)], stopping at the first exception. *)
Fixpoint for_each {A S : Type} (xs : list A) (body : A -> S -> result S)
  (st : S) : result S :=
  match xs with
  | [] => Ok st
  | x :: xs' => st' <- body x st ;; for_each xs' body st'
  end.

(** [[f(x) for x in xs]] (also [tuple(f(x) for x in xs)]). *)
Fixpoint map_result {A B : Type} (f : A -> result B) (xs : list A)
  : result (list B) :=
  match xs with
  | [] => Ok []
  | x :: xs' => y <- f x ;; ys <- map_result f xs' ;; Ok (y :: ys)
  end.

(** [range(lo, hi)] *)
Definition py_range (lo hi : nat) : list nat := seq lo (hi - lo).

(** [l[i]] for a non-negative index. *)
Definition py_getitem {A : Type} (l : list A) (i : nat) : result A :=
  match nth_error l i with
  | Some x => Ok x
  | None => Err (IndexError "list index out of range"%string)
  end.

(** [len(l)] *)
Definition len {A : Type} (l : list A) : Z := Z.of_nat (List.length l).

(* ------------------------------------------------------------------ *)
(** ** The float layer: width formulas and statistics *)

Definition math_domain_error : exn := ValueError "math domain error"%string.

(** Conversion of a non-negative [int] below [2^63] (a length) to binary64. *)
Definition float_of_int (z : Z) : float := PrimFloat.of_uint63 (Uint63.of_Z z).

(** [a / b] with a float divisor. *)
Definition float_truediv (a b : float) : result float :=
  if PrimFloat.eqb b 0%float
  then Err (ZeroDivisionError "float division by zero"%string)
  else Ok (PrimFloat.div a b).

(** Round half to even of a finite binary64 value, as an [int]. *)
Definition round_half_even (x : float) : Z :=
  match Prim2SF x with
  | S754_finite s m e =>
      let n := Z.pos m in
      let mag :=
        if 0 <=? e then n * 2 ^ e
        else
          let d := 2 ^ (- e) in
          let q := n / d in
          let r := n mod d in
          if 2 * r <? d then q
          else if d <? 2 * r then q + 1
          else if Z.even q then q else q + 1 in
      if s then - mag else mag
  | _ => 0
  end.

(** [round(x)] for a float [x] with no [ndigits]. *)
Definition py_round (x : float) : result Z :=
  if PrimFloat.is_nan x
  then Err (ValueError "cannot convert float NaN to integer"%string)
  else if PrimFloat.is_infinity x
  then Err (OverflowError "cannot convert float infinity to integer"%string)
  else Ok (round_half_even x).

(** A reference binary logarithm on binary64 (exponent, then the fraction
    bit by bit through repeated squaring); exact at the powers of two.  It
    instantiates [libm_log2] where a closed computation is wanted. *)
Fixpoint log2_frac (fuel : nat) (y w acc : float) : float :=
  match fuel with
  | O => acc
  | S fuel' =>
      let y2 := PrimFloat.mul y y in
      if PrimFloat.leb 2%float y2
      then log2_frac fuel' (PrimFloat.div y2 2%float) (PrimFloat.div w 2%float)
             (PrimFloat.add acc w)
      else log2_frac fuel' y2 (PrimFloat.div w 2%float) acc
  end.

Definition float_of_Z (z : Z) : float :=
  if z <? 0 then PrimFloat.opp (float_of_int (- z)) else float_of_int z.

Definition log2_ref (x : float) : float :=
  let '(m, e) := PrimFloat.frshiftexp x in
  PrimFloat.add
    (float_of_Z (Uint63.to_Z e - FloatOps.shift - 1))
    (log2_frac 52 (PrimFloat.mul m 2%float) 0.5%float 0%float).

(** [a / b] on two ints (CPython's true division of ints): the quotient
    rounded to the nearest binary64 number, ties to even, whatever the size
    of the operands; a quotient too small for the format is a signed zero.
    [S754_infinity] stands for a quotient too large for the format,
    [S754_nan] for a zero divisor. *)
Definition int_truediv_SF (a b : Z) : spec_float :=
  let s := xorb (a <? 0) (b <? 0) in
  match Z.abs a, Z.abs b with
  | Z.pos ma, Z.pos mb =>
      let '(mz, ez, lz) :=
        SFdiv_core_binary prec emax (Z.pos ma) 0 (Z.pos mb) 0 in
      binary_round_aux prec emax s mz ez lz
  | Z0, Z.pos _ => S754_zero s
  | _, _ => S754_nan
  end.

(* ------------------------------------------------------------------ *)
(** ** Distance Metric ([min_hamming_LSH.py], [calculate_hamming_distance]) *)

Definition vec : Type := list Z.

(** [sum(bs)] over booleans: [0 + b1 + b2 + ...] with [True] counted as 1. *)
Definition py_sum_bool (bs : list bool) : Z :=
  fold_left (fun acc b => acc + Z.b2z b) bs 0.

Definition calculate_hamming_distance (vec1 vec2 : vec) : result Z :=
  if negb (len vec1 =? len vec2)
  then Err (ValueError "Input vectors must have the same length."%string)
  else Ok (py_sum_bool
             (map (fun '(b1, b2) => negb (b1 =? b2)) (combine vec1 vec2))).

(** The specification's reading of the metric: the positions [i] below the
    common length at which the two vectors hold different values. *)
Definition differing_positions (vec1 vec2 : vec) : list nat :=
  filter (fun i => negb (nth i vec1 0 =? nth i vec2 0))
    (seq 0 (List.length vec1)).

(** Structural form of the count, used in the proofs. *)
Fixpoint hamming (a b : vec) : Z :=
  match a, b with
  | x :: a', y :: b' => Z.b2z (negb (x =? y)) + hamming a' b'
  | _, _ => 0
  end.

(* ------------------------------------------------------------------ *)
(** ** Exact Search ([min_hamming.py], [find_min_hamming_distance]) *)

(** [(min_distance, min_pair)]; [None] is Python's [None]. *)
Definition search_result : Type := (Z * option (vec * vec))%type.

Definition find_min_hamming_distance (vectors : list vec)
  : result search_result :=
  v0 <- py_getitem vectors 0 ;;
  for_each (py_range 0 (List.length vectors)) (fun i st =>
    for_each (py_range (i + 1) (List.length vectors)) (fun j st =>
      vi <- py_getitem vectors i ;;
      vj <- py_getitem vectors j ;;
      dist <- calculate_hamming_distance vi vj ;;
      Ok (if dist <? fst st then (dist, Some (vi, vj)) else st)) st)
    (len v0 + 1, None).

(* ------------------------------------------------------------------ *)
(** ** The random source *)

(** The outcomes of the successive calls to the random source. *)
Definition tape : Type := nat -> list nat.

(** State ([tape]) and exceptions. *)
Definition M (A : Type) : Type := tape -> result (A * tape).

Definition ret {A : Type} (a : A) : M A := fun t => Ok (a, t).

Definition bindM {A B : Type} (c : M A) (k : A -> M B) : M B :=
  fun t => match c t with
           | Ok (a, t') => k a t'
           | Err e => Err e
           end.

Definition lift {A : Type} (c : result A) : M A :=
  fun t => match c with
           | Ok a => Ok (a, t)
           | Err e => Err e
           end.

Definition raise {A : Type} (e : exn) : M A := fun _ => Err e.

Notation "x <<- c ;; k" := (bindM c (fun x => k))
  (at level 61, c at next level, right associativity).
Notation "' pat <<- c ;; k" := (bindM c (fun x => match x with pat => k end))
  (at level 61, pat pattern, c at next level, right associativity).

Definition next_draw : M (list nat) :=
  fun t => Ok (t 0%nat, fun k => t (S k)).

(** [for _ in range(n): st = body(st)] in [M]. *)
Fixpoint repeat_M {S : Type} (n : nat) (body : S -> M S) (st : S) : M S :=
  match n with
  | O => ret st
  | S n' => st' <<- body st ;; repeat_M n' body st'
  end.

(** [np.random.choice(a, size, replace=False)] for an integer [a]: the
    argument checks are numpy's, the sample itself is the next draw. *)
Definition np_random_choice (a size : Z) : M (list nat) :=
  if (a <=? 0) && negb (size =? 0)
  then raise (ValueError
         "a must be greater than 0 unless no samples are taken"%string)
  else if a <? size
  then raise (ValueError
         "Cannot take a larger sample than population when 'replace=False'"%string)
  else if size <? 0
  then raise (ValueError "Negative dimensions are not allowed"%string)
  else next_draw.

(** What numpy promises about the outcome of [np_random_choice a size]:
    [size] distinct positions below [a]. *)
Definition valid_sample (a size : Z) (s : list nat) : Prop :=
  len s = size /\ NoDup s /\ Forall (fun i => Z.of_nat i < a) s.

(** [np.random.randint(0, 2, size).tolist()] *)
Definition np_random_randint_bits (size : Z) : M vec :=
  if size <? 0
  then raise (ValueError "negative dimensions are not allowed"%string)
  else bits <<- next_draw ;; ret (map Z.of_nat bits).

(* ------------------------------------------------------------------ *)
(** ** Bucketizer ([classify_vectors_by_random_bits]) *)

(** A [defaultdict(list)] keyed by tuples, in insertion order. *)
Definition groups_dict : Type := list (list Z * list vec).

(** [groups[key].append(vec)] *)
Fixpoint defaultdict_append (groups : groups_dict) (key : list Z) (v : vec)
  : groups_dict :=
  match groups with
  | [] => [(key, [v])]
  | (k, g) :: rest =>
      if list_eq_dec Z.eq_dec k key
      then (k, g ++ [v]) :: rest
      else (k, g) :: defaultdict_append rest key v
  end.

(** [tuple(vec[i] for i in indices)] *)
Definition key_of (indices : list nat) (v : vec) : result (list Z) :=
  map_result (py_getitem v) indices.

(** The loop of the Bucketizer for a given sample. *)
Definition group_by_key (vectors : list vec) (indices : list nat)
  : result groups_dict :=
  for_each vectors (fun v groups =>
    key <- key_of indices v ;;
    Ok (defaultdict_append groups key v)) [].

Definition classify_vectors_by_random_bits (vectors : list vec)
  (num_of_bits : Z) : M (list (list vec)) :=
  match vectors with
  | [] => ret []
  | _ :: _ =>
      v0 <<- lift (py_getitem vectors 0) ;;
      let vector_length := len v0 in
      indices <<- np_random_choice vector_length num_of_bits ;;
      groups <<- lift (group_by_key vectors indices) ;;
      ret (map snd groups)
  end.

(* ------------------------------------------------------------------ *)
(** ** Group-Filtered Search ([find_min_hamming_distance_in_group]) *)

(** [all(vi[idx] == vj[idx] for idx in indices)]; stops at the first
    disagreement. *)
Fixpoint all_agree (vi vj : vec) (indices : list nat) : result bool :=
  match indices with
  | [] => Ok true
  | idx :: rest =>
      a <- py_getitem vi idx ;;
      b <- py_getitem vj idx ;;
      if a =? b then all_agree vi vj rest else Ok false
  end.

Definition find_min_hamming_distance_in_group (vectors : list vec)
  (indices : list nat) : result search_result :=
  v0 <- py_getitem vectors 0 ;;
  for_each (py_range 0 (List.length vectors)) (fun i st =>
    for_each (py_range (i + 1) (List.length vectors)) (fun j st =>
      vi <- py_getitem vectors i ;;
      vj <- py_getitem vectors j ;;
      agree <- all_agree vi vj indices ;;
      if agree
      then
        dist <- calculate_hamming_distance vi vj ;;
        Ok (if dist <? fst st then (dist, Some (vi, vj)) else st)
      else Ok st) st)
    (len v0 + 1, None).

(** The same search with a ghost log of the index pairs on which
    [calculate_hamming_distance] is called. *)
Definition find_min_hamming_distance_in_group_logged (vectors : list vec)
  (indices : list nat) : result (search_result * list (nat * nat)) :=
  v0 <- py_getitem vectors 0 ;;
  for_each (py_range 0 (List.length vectors)) (fun i st =>
    for_each (py_range (i + 1) (List.length vectors)) (fun j st =>
      vi <- py_getitem vectors i ;;
      vj <- py_getitem vectors j ;;
      agree <- all_agree vi vj indices ;;
      if agree
      then
        let log := snd st ++ [(i, j)] in
        dist <- calculate_hamming_distance vi vj ;;
        Ok (if dist <? fst (fst st) then ((dist, Some (vi, vj)), log)
            else (fst st, log))
      else Ok st) st)
    ((len v0 + 1, None), []).

(* ------------------------------------------------------------------ *)
(** ** Minimum of a list of results ([min] on tuples) *)

(** [a < b] on lists of ints: the first differing position decides,
    otherwise the shorter list is the smaller. *)
Fixpoint list_lt (a b : list Z) : bool :=
  match a, b with
  | [], [] => false
  | [], _ :: _ => true
  | _ :: _, [] => false
  | x :: a', y :: b' => if x =? y then list_lt a' b' else x <? y
  end.

(** [p < q] on 2-tuples of lists. *)
Definition pair_lt (p q : vec * vec) : bool :=
  if list_eq_dec Z.eq_dec (fst p) (fst q)
  then list_lt (snd p) (snd q)
  else list_lt (fst p) (fst q).

(** [r < s] on [(int, tuple | None)]: the distances decide unless they are
    equal; then the second components are compared, and [None] is only
    comparable with [None] (through [==]). *)
Definition tuple_lt (r s : search_result) : result bool :=
  if fst r =? fst s
  then match snd r, snd s with
       | None, None => Ok false
       | Some p, Some q => Ok (pair_lt p q)
       | None, Some _ =>
           Err (TypeError
             "'<' not supported between instances of 'NoneType' and 'tuple'"%string)
       | Some _, None =>
           Err (TypeError
             "'<' not supported between instances of 'tuple' and 'NoneType'"%string)
       end
  else Ok (fst r <? fst s).

(** [min(xs)] *)
Definition py_min (xs : list search_result) : result search_result :=
  match xs with
  | [] => Err (ValueError "min() arg is an empty sequence"%string)
  | x :: rest =>
      for_each rest (fun item best =>
        lt <- tuple_lt item best ;;
        Ok (if lt then item else best)) x
  end.

(* ------------------------------------------------------------------ *)
(** ** LSH round ([find_min_hamming_distance_across_groups]) *)

Definition find_min_hamming_distance_across_groups
  (groups : list (list vec)) (vector_length : Z) (num_of_sample_bits : Z)
  : M search_result :=
  sample_bits <<- np_random_choice vector_length num_of_sample_bits ;;
  min_values <<- lift (for_each groups (fun group min_values =>
      r <- find_min_hamming_distance_in_group group sample_bits ;;
      Ok (min_values ++ [r])) []) ;;
  lift (py_min min_values).

(* ------------------------------------------------------------------ *)
(** ** LSH Aggregator and Evaluation Harness *)

Section Aggregator.

(** The C library's [log2] on binary64. *)
Variable libm_log2 : float -> float.

(** [math.log2(n)] for an [int] argument. *)
Definition math_log2_int (n : Z) : result float :=
  if n <=? 0 then Err math_domain_error
  else Ok (libm_log2 (float_of_int n)).

(** [math.log2(x)] for a float argument. *)
Definition math_log2 (x : float) : result float :=
  if PrimFloat.is_nan x then Ok x
  else if PrimFloat.is_infinity x
  then (if PrimFloat.ltb 0%float x then Ok x else Err math_domain_error)
  else if PrimFloat.ltb 0%float x then Ok (libm_log2 x)
  else Err math_domain_error.

(** [round(math.log2(len(vectors) / math.log2(len(vectors))))] *)
Definition num_of_lsh_bits_of (vectors : list vec) : result Z :=
  l <- math_log2_int (len vectors) ;;
  q <- float_truediv (float_of_int (len vectors)) l ;;
  x <- math_log2 q ;;
  py_round x.

(** [round(math.log2(len(vectors[0])))] *)
Definition log_n_of (vectors : list vec) : result Z :=
  v0 <- py_getitem vectors 0 ;;
  x <- math_log2_int (len v0) ;;
  py_round x.

(** The two width computations that open [find_min_hamming_using_LSH]. *)
Definition lsh_widths (vectors : list vec) : result (Z * Z) :=
  num_of_lsh_bits <- num_of_lsh_bits_of vectors ;;
  log_n <- log_n_of vectors ;;
  Ok (num_of_lsh_bits, log_n).

(** One iteration of the loop body, appending to [results]. *)
Definition lsh_round (vectors : list vec) (num_of_lsh_bits log_n : Z)
  (results : list search_result) : M (list search_result) :=
  vectors_groups <<- classify_vectors_by_random_bits vectors num_of_lsh_bits ;;
  v0 <<- lift (py_getitem vectors 0) ;;
  iter_result <<-
    find_min_hamming_distance_across_groups vectors_groups (len v0) log_n ;;
  ret (results ++ [iter_result]).

Definition find_min_hamming_using_LSH (vectors : list vec) (iterations : Z)
  : M search_result :=
  '(num_of_lsh_bits, log_n) <<- lift (lsh_widths vectors) ;;
  results <<-
    repeat_M (Z.to_nat iterations)
      (lsh_round vectors num_of_lsh_bits log_n) [] ;;
  lift (py_min results).

(** [comparison.py], [get_min_hamming_results] *)
Definition get_min_hamming_results (num_of_vectors vector_length lsh_iter : Z)
  : M (Z * Z) :=
  binary_vectors <<-
    repeat_M (Z.to_nat num_of_vectors) (fun vs =>
      v <<- np_random_randint_bits vector_length ;; ret (vs ++ [v])) [] ;;
  exact <<- lift (find_min_hamming_distance binary_vectors) ;;
  let exact_result := fst exact in
  approx <<- find_min_hamming_using_LSH binary_vectors lsh_iter ;;
  let approx_result := fst approx in
  ret (exact_result, approx_result).

(** [a / b] on two ints: a binary64 float. *)
Definition py_truediv (a b : Z) : result float :=
  if b =? 0
  then Err (ZeroDivisionError "division by zero"%string)
  else match int_truediv_SF a b with
       | S754_infinity _ =>
           Err (OverflowError
                  "integer division result too large for a float"%string)
       | q => Ok (SF2Prim q)
       end.





End Aggregator.

(* ------------------------------------------------------------------ *)
(** ** Auxiliary notions used in the statements and proofs *)

(** The index pairs [(i, j)], [i < j < n], in the order in which the two
    nested [range] loops visit them. *)
Definition index_pairs (n : nat) : list (nat * nat) :=
  flat_map (fun i => map (pair i) (py_range (i + 1) n)) (py_range 0 n).

(** Loop order on index pairs: outer index first, then inner index. *)
Definition visited_before (p q : nat * nat) : Prop :=
  (fst p < fst q)%nat \/ (fst p = fst q /\ (snd p < snd q)%nat).

(** One step of a minimum scan over candidates [c] with distance [d c] and
    payload [payload c]; only a strictly smaller distance replaces the
    current minimum. *)
Definition scan_step {C P : Type} (d : C -> Z) (payload : C -> P)
  (st : Z * option P) (c : C) : Z * option P :=
  if d c <? fst st then (d c, Some (payload c)) else st.

(** The vectors [a] and [b] hold the same value at every position of
    [indices]. *)
Definition agree_on (indices : list nat) (a b : vec) : Prop :=
  Forall (fun idx => nth_error a idx = nth_error b idx) indices.

(** Boolean form of [agree_on] for vectors that cover the positions. *)
Definition agree_onb (indices : list nat) (a b : vec) : bool :=
  forallb (fun idx => nth idx a 0 =? nth idx b 0) indices.

(** The vectors at an index pair, and their distance (structural form). *)
Definition pair_at (vectors : list vec) (p : nat * nat) : vec * vec :=
  (nth (fst p) vectors [], nth (snd p) vectors []).

Definition pair_distance (vectors : list vec) (p : nat * nat) : Z :=
  hamming (nth (fst p) vectors []) (nth (snd p) vectors []).

(** The index pair [p] of [vectors] passes the filter on [indices]. *)
Definition qualifies (vectors : list vec) (indices : list nat)
  (p : nat * nat) : bool :=
  agree_onb indices (nth (fst p) vectors []) (nth (snd p) vectors []).

(** [groups.get(key)] *)
Fixpoint dict_get (groups : groups_dict) (key : list Z) : option (list vec) :=
  match groups with
  | [] => None
  | (k, g) :: rest =>
      if list_eq_dec Z.eq_dec k key then Some g else dict_get rest key
  end.

(** The vector [v] has grouping key [k] for the sample [indices]. *)
Definition has_key (indices : list nat) (k : list Z) (v : vec) : bool :=
  match key_of indices v with
  | Ok k' => if list_eq_dec Z.eq_dec k k' then true else false
  | Err _ => false
  end.

(** What the dictionary of the Bucketizer holds under key [k] once the
    vectors [pre] have been processed. *)
Definition bucket_of (indices : list nat) (pre : list vec) (k : list Z)
  : option (list vec) :=
  match filter (has_key indices k) pre with
  | [] => None
  | v :: g => Some (v :: g)
  end.

(** No entry without a pair shares its distance with an entry that has a
    pair.  The results built by the searches meet this: an entry without a
    pair carries the distance [n + 1], an entry with a pair at most [n]. *)
Definition tie_free (results : list search_result) : Prop :=
  forall x y, In x results -> In y results -> fst x = fst y ->
              (snd x = None <-> snd y = None).

(** Shape of a result of a search over vectors of length [n]. *)
Definition well_formed (n : Z) (r : search_result) : Prop :=
  match snd r with
  | None => fst r = n + 1
  | Some _ => 0 <= fst r <= n
  end.

(** The distance of [r] is the sentinel of length [n] or the distance of
    two vectors at distinct positions of [vectors]. *)
Definition sentinel_or_pair (vectors : list vec) (n : Z) (r : search_result)
  : Prop :=
  fst r = n + 1 \/
  exists i j, (i < j < List.length vectors)%nat /\
              fst r = pair_distance vectors (i, j).

(** The tape answers the calls of [rounds] rounds on vectors of length [n]:
    in each round a grouping sample of [num_of_lsh_bits] positions, then a
    filter sample of [log_n] positions. *)
Definition admissible_tape (n num_of_lsh_bits log_n : Z) (rounds : nat)
  (t : tape) : Prop :=
  forall i, (i < rounds)%nat ->
            valid_sample n num_of_lsh_bits (t (2 * i)%nat) /\
            valid_sample n log_n (t (2 * i + 1)%nat).

(** The exceptions that the arithmetic of the width formulas can raise:
    they carry the message of the failing operation, none describes the
    input of [find_min_hamming_using_LSH]. *)
Definition arithmetic_fault (e : exn) : Prop :=
  e = math_domain_error \/
  e = ZeroDivisionError "float division by zero"%string \/
  e = ValueError "cannot convert float NaN to integer"%string \/
  e = OverflowError "cannot convert float infinity to integer"%string.

(** The inputs on which the width formulas are not defined: an empty
    collection, a single vector, or vectors of length zero. *)
Definition degenerate (vectors : list vec) : Prop :=
  vectors = [] \/ List.length vectors = 1%nat \/
  exists rest, vectors = [] :: rest.

(** The statistics as the specification words them, over the recorded
    trials [(exact, approx)]. *)







(** Notions used to follow the rounding of a binary64 operation. *)




(* ------------------------------------------------------------------ *)
(** ** Entry point of [min_hamming_LSH.py] ([main]) *)

(** [[np.random.randint(0, 2, length).tolist() for _ in range(vectors)]],
    the generation step shared by [main] and [get_min_hamming_results]. *)
Definition generate_binary_vectors (num_of_vectors vector_length : Z)
  : M (list vec) :=
  repeat_M (Z.to_nat num_of_vectors) (fun vs =>
    v <<- np_random_randint_bits vector_length ;; ret (vs ++ [v])) [].

(** What a [print(label, value)] call writes. *)
Inductive printed : Type :=
| PrintInt (label : string) (value : Z)
| PrintVec (label : string) (value : vec).

(** [main] after [parser.parse_args()]: the lines written so far, and the
    outcome.  [result[1][0]] is evaluated after the first [print] and
    raises on [None]. *)
Definition min_hamming_LSH_main (libm_log2 : float -> float)
  (vectors length iterations : Z) (t : tape)
  : list printed * result tape :=
  match (binary_vectors <<- generate_binary_vectors vectors length ;;
         find_min_hamming_using_LSH libm_log2 binary_vectors iterations) t with
  | Err e => ([], Err e)
  | Ok (result, t') =>
      let line1 :=
        PrintInt "Minimum Hamming distance is"%string (fst result) in
      match snd result with
      | None =>
          ([line1],
           Err (TypeError "'NoneType' object is not subscriptable"%string))
      | Some (v1, v2) =>
          ([line1; PrintVec "V1: "%string v1; PrintVec "V2: "%string v2],
           Ok t')
      end
  end.

(** The pair of [r] is made of two vectors at positions [i < j] of
    [vectors] and the distance of [r] is their Hamming distance; without a
    pair, the distance of [r] is the sentinel of some vector of
    [vectors]. *)
Definition genuine (vectors : list vec) (r : search_result) : Prop :=
  match snd r with
  | Some (a, b) =>
      exists i j,
        (i < j)%nat /\ nth_error vectors i = Some a /\
        nth_error vectors j = Some b /\
        calculate_hamming_distance a b = Ok (fst r)
  | None => exists v, In v vectors /\ fst r = len v + 1
  end.

(** A binary vector: every entry is 0 or 1. *)
Definition binary (v : vec) : Prop := Forall (fun b => b = 0 \/ b = 1) v.

(** All the bit tuples of a given width. *)
Fixpoint bit_tuples (width : nat) : list (list Z) :=
  match width with
  | O => [[]]
  | S w => map (cons 0) (bit_tuples w) ++ map (cons 1) (bit_tuples w)
  end.

(** Python's order on results, [r <= x]: a smaller distance, or the same
    distance and then no pair on both sides, or a pair on both sides with
    the pair of [r] equal to or lexicographically below the pair of [x]. *)
Definition tuple_le (r x : search_result) : Prop :=
  fst r < fst x \/
  (fst r = fst x /\
   match snd r, snd x with
   | None, None => True
   | Some p, Some q => p = q \/ pair_lt p q = true
   | _, _ => False
   end).

(* ================================================================== *)
(** * Properties *)

(** ** Generic facts about the monads and loops *)

Lemma bind_Ok_inv {A B : Type} (c : result A) (k : A -> result B) (b : B) :
  bind c k = Ok b -> exists a, c = Ok a /\ k a = Ok b.
Proof. destruct c as [a|e]; simpl; intros H; [eauto | discriminate]. Qed.

Lemma for_each_app {A S : Type} (xs ys : list A) (body : A -> S -> result S)
  (st : S) :
  for_each (xs ++ ys) body st = st' <- for_each xs body st ;; for_each ys body st'.
Proof.
  revert st. induction xs as [|x xs IH]; intros st; simpl; [reflexivity|].
  destruct (body x st) as [st'|e]; simpl; [apply IH | reflexivity].
Qed.

(** A loop whose body never raises is a left fold. *)
Lemma for_each_pure {A S : Type} (xs : list A) (body : A -> S -> result S)
  (step : S -> A -> S) (st : S) :
  (forall x s, In x xs -> body x s = Ok (step s x)) ->
  for_each xs body st = Ok (fold_left step xs st).
Proof.
  revert st. induction xs as [|x xs IH]; intros st H; simpl; [reflexivity|].
  rewrite H by (left; reflexivity). simpl. apply IH.
  intros y s Hy. apply H. right. exact Hy.
Qed.

(** Invariant rule for a loop that may raise: the invariant speaks about
    the prefix processed so far. *)
Lemma for_each_invariant {A S : Type} (P : list A -> S -> Prop)
  (xs : list A) (body : A -> S -> result S) (st0 st' : S) :
  P [] st0 ->
  (forall pre x post s s',
      xs = pre ++ x :: post -> P pre s -> body x s = Ok s' -> P (pre ++ [x]) s') ->
  for_each xs body st0 = Ok st' ->
  P xs st'.
Proof.
  intros H0 Hstep.
  assert (G : forall post pre s, xs = pre ++ post -> P pre s ->
                for_each post body s = Ok st' -> P xs st').
  { induction post as [|x post IH]; intros pre s Hxs Hp Hrun; simpl in Hrun.
    - injection Hrun as <-. rewrite Hxs, app_nil_r. exact Hp.
    - apply bind_Ok_inv in Hrun as (s1 & Hb & Hrun).
      apply (IH (pre ++ [x]) s1).
      + rewrite <- app_assoc. exact Hxs.
      + eapply Hstep; eauto.
      + exact Hrun. }
  intros Hrun. apply (G xs [] st0); auto.
Qed.

Lemma py_getitem_Some {A : Type} (l : list A) (i : nat) (x : A) :
  nth_error l i = Some x -> py_getitem l i = Ok x.
Proof. unfold py_getitem. intros ->. reflexivity. Qed.

Lemma len_eq_iff {A B : Type} (a : list A) (b : list B) :
  len a = len b <-> List.length a = List.length b.
Proof. unfold len. lia. Qed.

(** ** Distance Metric *)

Lemma py_sum_bool_acc (bs : list bool) (acc : Z) :
  fold_left (fun a b => a + Z.b2z b) bs acc
  = acc + fold_left (fun a b => a + Z.b2z b) bs 0.
Proof.
  revert acc. induction bs as [|b bs IH]; intros acc; simpl; [lia|].
  rewrite IH. rewrite (IH (Z.b2z b)). lia.
Qed.

Lemma py_sum_bool_hamming (a b : vec) :
  py_sum_bool (map (fun '(b1, b2) => negb (b1 =? b2)) (combine a b))
  = hamming a b.
Proof.
  unfold py_sum_bool. revert b.
  induction a as [|x a IH]; intros [|y b]; simpl; try reflexivity.
  rewrite py_sum_bool_acc, IH. reflexivity.
Qed.

Lemma calculate_hamming_distance_eq (a b : vec) :
  List.length a = List.length b ->
  calculate_hamming_distance a b = Ok (hamming a b).
Proof.
  intros H. unfold calculate_hamming_distance.
  apply len_eq_iff in H. rewrite H, Z.eqb_refl. simpl.
  rewrite py_sum_bool_hamming. reflexivity.
Qed.

Lemma calculate_hamming_distance_neq (a b : vec) :
  List.length a <> List.length b ->
  calculate_hamming_distance a b
  = Err (ValueError "Input vectors must have the same length."%string).
Proof.
  intros H. unfold calculate_hamming_distance.
  destruct (Z.eqb_spec (len a) (len b)) as [E|E]; simpl; [|reflexivity].
  apply len_eq_iff in E. contradiction.
Qed.

Lemma hamming_sym (a b : vec) : hamming a b = hamming b a.
Proof.
  revert b. induction a as [|x a IH]; intros [|y b]; simpl; try reflexivity.
  rewrite IH, (Z.eqb_sym x y). reflexivity.
Qed.

Lemma hamming_bounds (a b : vec) : 0 <= hamming a b <= len a.
Proof.
  unfold len. revert b.
  induction a as [|x a IH]; intros [|y b]; simpl List.length; simpl hamming;
    try lia.
  specialize (IH b). destruct (x =? y); cbn [negb Z.b2z]; lia.
Qed.

Lemma hamming_zero_iff (a b : vec) :
  List.length a = List.length b -> (hamming a b = 0 <-> a = b).
Proof.
  revert b. induction a as [|x a IH]; intros [|y b] Hlen; simpl in *;
    try discriminate; [tauto|].
  injection Hlen as Hlen. specialize (IH b Hlen).
  pose proof (hamming_bounds a b) as Hb.
  destruct (Z.eqb_spec x y) as [E|E]; cbn [negb Z.b2z].
  - subst y. split; intros H.
    + f_equal. apply IH. lia.
    + injection H as H. apply IH in H. lia.
  - split; intros H; [lia | congruence].
Qed.

Lemma filter_seq_shift (f : nat -> bool) (k n : nat) :
  List.length (filter f (seq (S k) n))
  = List.length (filter (fun i => f (S i)) (seq k n)).
Proof.
  revert k. induction n as [|n IH]; intros k; simpl; [reflexivity|].
  destruct (f (S k)); simpl; rewrite IH; reflexivity.
Qed.

Lemma hamming_differing_positions (a b : vec) :
  hamming a b = Z.of_nat (List.length (differing_positions a b)) \/
  List.length a <> List.length b.
Proof.
  destruct (Nat.eq_dec (List.length a) (List.length b)) as [E|E]; [left|right; exact E].
  unfold differing_positions. revert b E.
  induction a as [|x a IH]; intros [|y b] E; simpl in E; try discriminate;
    [reflexivity|].
  injection E as E. simpl List.length. simpl seq. simpl filter.
  simpl hamming. rewrite (IH b E).
  destruct (x =? y); simpl negb; cbv iota; simpl List.length;
    rewrite filter_seq_shift; simpl nth; simpl Z.b2z; lia.
Qed.

(** ** Nested loops over index pairs *)

Lemma for_each_map {A B S : Type} (g : A -> B) (xs : list A)
  (body : B -> S -> result S) (st : S) :
  for_each (map g xs) body st = for_each xs (fun x => body (g x)) st.
Proof.
  revert st. induction xs as [|x xs IH]; intros st; simpl; [reflexivity|].
  destruct (body (g x) st); simpl; [apply IH | reflexivity].
Qed.

Lemma for_each_nested {A B S : Type} (xs : list A) (inner : A -> list B)
  (body : A -> B -> S -> result S) (st : S) :
  for_each xs (fun i s => for_each (inner i) (body i) s) st
  = for_each (flat_map (fun i => map (pair i) (inner i)) xs)
      (fun p s => body (fst p) (snd p) s) st.
Proof.
  revert st. induction xs as [|x xs IH]; intros st; simpl; [reflexivity|].
  rewrite for_each_app, for_each_map. simpl.
  destruct (for_each (inner x) (body x) st); simpl; [apply IH | reflexivity].
Qed.

Lemma in_py_range (lo hi i : nat) : In i (py_range lo hi) <-> (lo <= i < hi)%nat.
Proof. unfold py_range. rewrite in_seq. lia. Qed.

Lemma in_index_pairs (n i j : nat) :
  In (i, j) (index_pairs n) <-> (i < j < n)%nat.
Proof.
  unfold index_pairs. rewrite in_flat_map. split.
  - intros (k & Hk & Hin). apply in_map_iff in Hin as (j' & E & Hj).
    injection E as -> ->. apply in_py_range in Hk, Hj. lia.
  - intros H. exists i. split; [apply in_py_range; lia|].
    apply in_map. apply in_py_range. lia.
Qed.

Lemma StronglySorted_app {A : Type} (R : A -> A -> Prop) (l1 l2 : list A) :
  StronglySorted R l1 -> StronglySorted R l2 ->
  (forall x y, In x l1 -> In y l2 -> R x y) ->
  StronglySorted R (l1 ++ l2).
Proof.
  induction l1 as [|a l1 IH]; intros H1 H2 Hc; simpl; [exact H2|].
  apply StronglySorted_inv in H1 as [H1 Ha]. constructor.
  - apply IH; auto. intros x y Hx Hy. apply Hc; [right|]; assumption.
  - apply Forall_app. split; [exact Ha|].
    apply Forall_forall. intros y Hy. apply Hc; [left; reflexivity | exact Hy].
Qed.

Lemma StronglySorted_split {A : Type} (R : A -> A -> Prop) (l1 l2 : list A)
  (x : A) :
  StronglySorted R (l1 ++ x :: l2) -> Forall (R x) l2.
Proof.
  induction l1 as [|a l1 IH]; simpl; intros H;
    apply StronglySorted_inv in H as [H Ha]; [exact Ha | apply IH; exact H].
Qed.

Lemma map_pair_sorted (i lo m : nat) :
  StronglySorted visited_before (map (pair i) (seq lo m)).
Proof.
  revert lo. induction m as [|m IH]; intros lo; simpl; constructor; [apply IH|].
  apply Forall_forall. intros q Hq. apply in_map_iff in Hq as (j & <- & Hj).
  apply in_seq in Hj. right. simpl. lia.
Qed.

Lemma index_pairs_from_sorted (n k m : nat) :
  StronglySorted visited_before
    (flat_map (fun i => map (pair i) (py_range (i + 1) n)) (seq k m)).
Proof.
  revert k. induction m as [|m IH]; intros k; simpl; [constructor|].
  apply StronglySorted_app; [apply map_pair_sorted | apply IH |].
  intros p q Hp Hq. apply in_map_iff in Hp as (j & <- & _).
  apply in_flat_map in Hq as (i' & Hi' & Hq).
  apply in_map_iff in Hq as (j' & <- & _). apply in_seq in Hi'.
  left. simpl. lia.
Qed.

Lemma index_pairs_sorted (n : nat) :
  StronglySorted visited_before (index_pairs n).
Proof. apply index_pairs_from_sorted. Qed.

(** ** The minimum scan *)

Lemma scan_spec {C P : Type} (d : C -> Z) (payload : C -> P)
  (cands : list C) (init : Z) :
  let r := fold_left (scan_step d payload) cands (init, None) in
  match snd r with
  | None => fst r = init /\ Forall (fun c => init <= d c) cands
  | Some p =>
      exists l1 c l2,
        cands = l1 ++ c :: l2 /\ p = payload c /\ fst r = d c /\ d c < init /\
        Forall (fun c' => d c < d c') l1 /\ Forall (fun c' => d c <= d c') l2
  end.
Proof.
  induction cands as [|x l IH] using rev_ind; simpl.
  - split; [reflexivity | constructor].
  - rewrite fold_left_app. cbv zeta in IH. cbn [fold_left].
    set (r' := fold_left (scan_step d payload) l (init, None)) in *.
    unfold scan_step.
    destruct (Z.ltb_spec (d x) (fst r')) as [Hlt|Hge]; simpl.
    + exists l, x, []. destruct (snd r') as [p'|].
      * destruct IH as (l1 & c & l2 & -> & _ & Hr & Hc & H1 & H2).
        repeat split; try reflexivity; try lia; [|constructor].
        rewrite Hr in Hlt. apply Forall_app. split.
        -- eapply Forall_impl; [|exact H1]. simpl. intros; lia.
        -- constructor; [lia|]. eapply Forall_impl; [|exact H2]. simpl. intros; lia.
      * destruct IH as [Hr Hall]. rewrite Hr in Hlt.
        repeat split; try reflexivity; try lia; [|constructor].
        eapply Forall_impl; [|exact Hall]. simpl. intros; lia.
    + destruct (snd r') as [p'|].
      * destruct IH as (l1 & c & l2 & -> & Hp & Hr & Hc & H1 & H2).
        exists l1, c, (l2 ++ [x]). rewrite <- app_assoc. simpl.
        repeat split; auto. apply Forall_app. split; [exact H2|].
        constructor; [lia | constructor].
      * destruct IH as [Hr Hall]. split; [exact Hr|].
        apply Forall_app. split; [exact Hall|]. constructor; [lia|constructor].
Qed.

(** ** Exact Search *)

Lemma Forall_nth_length (vectors : list vec) (n i : nat) :
  Forall (fun v => List.length v = n) vectors ->
  (i < List.length vectors)%nat ->
  List.length (nth i vectors []) = n.
Proof.
  intros Hall Hi. rewrite Forall_forall in Hall. apply Hall. apply nth_In. exact Hi.
Qed.

Lemma py_getitem_nth (vectors : list vec) (i : nat) :
  (i < List.length vectors)%nat ->
  py_getitem vectors i = Ok (nth i vectors []).
Proof. intros Hi. apply py_getitem_Some. apply nth_error_nth'. exact Hi. Qed.

Lemma nth_error_nth_eq (vectors : list vec) (i : nat) (a : vec) :
  nth_error vectors i = Some a ->
  (i < List.length vectors)%nat /\ nth i vectors [] = a.
Proof.
  intros H. split; [apply nth_error_Some; congruence|].
  apply nth_error_nth. exact H.
Qed.

Lemma find_min_hamming_distance_scan (vectors : list vec) (n : nat) :
  vectors <> [] ->
  Forall (fun v => List.length v = n) vectors ->
  find_min_hamming_distance vectors
  = Ok (fold_left (scan_step (pair_distance vectors) (pair_at vectors))
          (index_pairs (List.length vectors)) (Z.of_nat n + 1, None)).
Proof.
  intros Hne Hall. unfold find_min_hamming_distance.
  rewrite py_getitem_nth by (destruct vectors; [congruence | simpl; lia]).
  cbn [bind]. unfold len at 1.
  rewrite (Forall_nth_length vectors n 0 Hall)
    by (destruct vectors; [congruence | simpl; lia]).
  rewrite for_each_nested. fold (index_pairs (List.length vectors)).
  apply for_each_pure. intros [i j] st Hin. apply in_index_pairs in Hin.
  cbn [fst snd]. rewrite !py_getitem_nth by lia. cbn [bind].
  rewrite calculate_hamming_distance_eq
    by (rewrite !(Forall_nth_length vectors n) by (auto; lia); reflexivity).
  reflexivity.
Qed.

Lemma visited_before_irrefl (p : nat * nat) : ~ visited_before p p.
Proof. unfold visited_before. lia. Qed.

Lemma visited_before_asym (p q : nat * nat) :
  visited_before p q -> ~ visited_before q p.
Proof. unfold visited_before. lia. Qed.

(** In a sorted candidate list, whatever is visited before [c] lies in the
    part of the list that precedes [c]. *)
Lemma visited_before_prefix (l1 l2 : list (nat * nat)) (c c' : nat * nat) :
  StronglySorted visited_before (l1 ++ c :: l2) ->
  In c' (l1 ++ c :: l2) -> visited_before c' c -> In c' l1.
Proof.
  intros Hs Hin Hb. apply in_app_or in Hin as [H|[H|H]]; [exact H | |].
  - subst c'. exfalso. eapply visited_before_irrefl; eauto.
  - apply StronglySorted_split in Hs. rewrite Forall_forall in Hs.
    exfalso. eapply visited_before_asym; eauto.
Qed.

(** C2. For a collection of at least two vectors of one length, Exact
    Search returns a pair taken from two positions [i < j] of the
    collection together with its Hamming distance; no pair of distinct
    positions is strictly closer; and every pair that the loops visit
    before [(i, j)] (outer index first, then inner index) is strictly
    farther, so the first minimal pair is the one returned. *)
Theorem find_min_hamming_distance_minimal_first (vectors : list vec) (n : nat) :
  (2 <= List.length vectors)%nat ->
  Forall (fun v => List.length v = n) vectors ->
  exists (i j : nat) (a b : vec) (d : Z),
    find_min_hamming_distance vectors = Ok (d, Some (a, b)) /\
    (i < j)%nat /\ nth_error vectors i = Some a /\ nth_error vectors j = Some b /\
    calculate_hamming_distance a b = Ok d /\
    (forall i' j' a' b',
        i' <> j' ->
        nth_error vectors i' = Some a' -> nth_error vectors j' = Some b' ->
        exists d', calculate_hamming_distance a' b' = Ok d' /\ d <= d') /\
    (forall i' j' a' b',
        (i' < j')%nat -> visited_before (i', j') (i, j) ->
        nth_error vectors i' = Some a' -> nth_error vectors j' = Some b' ->
        exists d', calculate_hamming_distance a' b' = Ok d' /\ d < d').
Proof.
  intros Hlen Hall.
  assert (Hne : vectors <> []) by (destruct vectors; [simpl in Hlen; lia | congruence]).
  rewrite (find_min_hamming_distance_scan vectors n Hne Hall).
  pose proof (scan_spec (pair_distance vectors) (pair_at vectors)
                (index_pairs (List.length vectors)) (Z.of_nat n + 1)) as Hscan.
  cbv zeta in Hscan.
  destruct (fold_left _ _ _) as [d [p|]]; cbn [fst snd] in Hscan.
  2:{ destruct Hscan as [_ Hge]. rewrite Forall_forall in Hge.
      assert (Hin : In (0, 1)%nat (index_pairs (List.length vectors)))
        by (apply in_index_pairs; lia).
      apply Hge in Hin. unfold pair_distance in Hin. cbn [fst snd] in Hin.
      pose proof (hamming_bounds (nth 0 vectors []) (nth 1 vectors [])) as Hb.
      unfold len in Hb. rewrite (Forall_nth_length vectors n 0) in Hb by (auto; lia).
      lia. }
  destruct Hscan as (l1 & [i j] & l2 & Hsplit & -> & -> & Hlt & H1 & H2).
  assert (Hij : (i < j < List.length vectors)%nat).
  { apply in_index_pairs. rewrite Hsplit. apply in_or_app. right. left. reflexivity. }
  assert (Hlen_at : forall k, (k < List.length vectors)%nat ->
                      List.length (nth k vectors []) = n)
    by (intros; apply Forall_nth_length; auto).
  assert (Hmin : forall i' j', (i' < j' < List.length vectors)%nat ->
                   pair_distance vectors (i, j) <= pair_distance vectors (i', j')).
  { intros i' j' H'. apply in_index_pairs in H'. rewrite Hsplit in H'.
    rewrite Forall_forall in H1, H2.
    apply in_app_or in H' as [H'|[H'|H']].
    - apply H1 in H'. lia.
    - rewrite <- H'. lia.
    - apply H2 in H'. exact H'. }
  exists i, j, (nth i vectors []), (nth j vectors []), (pair_distance vectors (i, j)).
  unfold pair_at. cbn [fst snd]. repeat split.
  - lia.
  - apply nth_error_nth'. lia.
  - apply nth_error_nth'. lia.
  - apply calculate_hamming_distance_eq. rewrite !Hlen_at by lia. reflexivity.
  - intros i' j' a' b' Hneq Ha Hb.
    apply nth_error_nth_eq in Ha as [Hi' <-], Hb as [Hj' <-].
    exists (hamming (nth i' vectors []) (nth j' vectors [])). split.
    + apply calculate_hamming_distance_eq. rewrite !Hlen_at by lia. reflexivity.
    + destruct (Nat.lt_ge_cases i' j') as [Hlt'|Hge'].
      * apply (Hmin i' j'). lia.
      * rewrite hamming_sym. apply (Hmin j' i'). lia.
  - intros i' j' a' b' Hlt' Hbefore Ha Hb.
    apply nth_error_nth_eq in Ha as [Hi' <-], Hb as [Hj' <-].
    exists (hamming (nth i' vectors []) (nth j' vectors [])). split.
    + apply calculate_hamming_distance_eq. rewrite !Hlen_at by lia. reflexivity.
    + assert (Hin : In (i', j') l1).
      { apply (visited_before_prefix l1 l2 (i, j)); auto.
        - rewrite <- Hsplit. apply index_pairs_sorted.
        - rewrite <- Hsplit. apply in_index_pairs. lia. }
      rewrite Forall_forall in H1. apply H1 in Hin. exact Hin.
Qed.

Lemma find_min_hamming_distance_minimal_first_witness :
  (2 <= List.length [[0; 0; 0; 0]; [0; 0; 0; 1]; [1; 1; 1; 1]])%nat /\
  Forall (fun v : vec => List.length v = 4%nat)
    [[0; 0; 0; 0]; [0; 0; 0; 1]; [1; 1; 1; 1]] /\
  exists (i j : nat) (a b : vec) (d : Z),
    find_min_hamming_distance [[0; 0; 0; 0]; [0; 0; 0; 1]; [1; 1; 1; 1]]
    = Ok (d, Some (a, b)) /\ (i < j)%nat.
Proof.
  split; [simpl; lia|]. split; [repeat constructor|].
  destruct (find_min_hamming_distance_minimal_first
              [[0; 0; 0; 0]; [0; 0; 0; 1]; [1; 1; 1; 1]] 4)
    as (i & j & a & b & d & Hrun & Hij & _);
    [simpl; lia | repeat constructor |].
  exists i, j, a, b, d. split; assumption.
Defined.

(** C9. On a collection of exactly one vector of length [n], Exact Search
    raises nothing and returns the sentinel: distance [n + 1], no pair. *)
Theorem find_min_hamming_distance_single (v : vec) :
  find_min_hamming_distance [v] = Ok (len v + 1, None).
Proof. reflexivity. Qed.

(** ** Distance Metric: the claims *)

(** C7. The Distance Metric raises exactly when the two lengths differ, the
    exception is then a [ValueError], and on equal lengths it returns the
    number of positions at which the vectors differ. *)
Theorem calculate_hamming_distance_spec (vec1 vec2 : vec) :
  (List.length vec1 <> List.length vec2 <->
     exists e, calculate_hamming_distance vec1 vec2 = Err e) /\
  (forall e, calculate_hamming_distance vec1 vec2 = Err e ->
     exists msg, e = ValueError msg) /\
  (List.length vec1 = List.length vec2 ->
     calculate_hamming_distance vec1 vec2
     = Ok (Z.of_nat (List.length (differing_positions vec1 vec2)))).
Proof.
  destruct (Nat.eq_dec (List.length vec1) (List.length vec2)) as [E|E].
  - rewrite (calculate_hamming_distance_eq _ _ E). repeat split.
    + intros H. contradiction.
    + intros [e He]. discriminate.
    + intros e He. discriminate.
    + intros _. destruct (hamming_differing_positions vec1 vec2) as [->|H];
        [reflexivity | contradiction].
  - rewrite (calculate_hamming_distance_neq _ _ E). repeat split.
    + intros _. eexists. reflexivity.
    + intros _. exact E.
    + intros e He. injection He as <-. eexists. reflexivity.
    + intros H. contradiction.
Qed.

(** C8. On vectors of one length the Distance Metric is symmetric and it is
    zero exactly when the two vectors are equal. *)
Theorem calculate_hamming_distance_symmetric_zero (a b : vec) :
  List.length a = List.length b ->
  calculate_hamming_distance a b = calculate_hamming_distance b a /\
  (calculate_hamming_distance a b = Ok 0 <-> a = b).
Proof.
  intros E.
  rewrite (calculate_hamming_distance_eq a b E).
  rewrite (calculate_hamming_distance_eq b a (eq_sym E)).
  split; [rewrite hamming_sym; reflexivity|].
  rewrite <- (hamming_zero_iff a b E). split; intros H; congruence.
Qed.

Lemma calculate_hamming_distance_symmetric_zero_witness :
  List.length [1; 0; 1] = List.length [1; 1; 1] /\
  (calculate_hamming_distance [1; 0; 1] [1; 1; 1]
   = calculate_hamming_distance [1; 1; 1] [1; 0; 1] /\
   (calculate_hamming_distance [1; 0; 1] [1; 1; 1] = Ok 0
    <-> [1; 0; 1] = [1; 1; 1])).
Proof.
  split; [reflexivity|].
  apply (calculate_hamming_distance_symmetric_zero [1; 0; 1] [1; 1; 1]).
  reflexivity.
Defined.

(** ** Group-Filtered Search *)

Lemma for_each_proj {A S T : Type} (proj : S -> T) (xs : list A)
  (f : A -> S -> result S) (g : A -> T -> result T) (st : S) :
  (forall x s, In x xs -> g x (proj s) = s' <- f x s ;; Ok (proj s')) ->
  for_each xs g (proj st) = s' <- for_each xs f st ;; Ok (proj s').
Proof.
  revert st. induction xs as [|x xs IH]; intros st H; simpl; [reflexivity|].
  rewrite H by (left; reflexivity).
  destruct (f x st) as [s1|e]; simpl; [|reflexivity].
  apply IH. intros y s Hy. apply H. right. exact Hy.
Qed.

(** The ghost log does not change the search. *)
Lemma find_min_hamming_distance_in_group_erase (vectors : list vec)
  (indices : list nat) :
  find_min_hamming_distance_in_group vectors indices
  = r <- find_min_hamming_distance_in_group_logged vectors indices ;;
    Ok (fst r).
Proof.
  unfold find_min_hamming_distance_in_group,
    find_min_hamming_distance_in_group_logged.
  destruct (py_getitem vectors 0) as [v0|e]; cbn [bind]; [|reflexivity].
  rewrite !for_each_nested.
  apply (for_each_proj fst _ _ _ ((len v0 + 1, None), [])).
  intros [i j] s _. cbn [fst snd].
  destruct (py_getitem vectors i) as [vi|e]; cbn [bind]; [|reflexivity].
  destruct (py_getitem vectors j) as [vj|e]; cbn [bind]; [|reflexivity].
  destruct (all_agree vi vj indices) as [[|]|e]; cbn [bind]; try reflexivity.
  destruct (calculate_hamming_distance vi vj) as [d|e]; cbn [bind];
    [|reflexivity].
  destruct (d <? fst (fst s)); reflexivity.
Qed.

Lemma all_agree_covered (indices : list nat) (a b : vec) (n : nat) :
  List.length a = n -> List.length b = n ->
  Forall (fun idx => (idx < n)%nat) indices ->
  all_agree a b indices = Ok (agree_onb indices a b).
Proof.
  intros Ha Hb. induction 1 as [|idx rest Hidx _ IH]; simpl; [reflexivity|].
  rewrite (py_getitem_Some a idx (nth idx a 0))
    by (apply nth_error_nth'; lia).
  rewrite (py_getitem_Some b idx (nth idx b 0))
    by (apply nth_error_nth'; lia).
  cbn [bind]. destruct (nth idx a 0 =? nth idx b 0); simpl; [exact IH|reflexivity].
Qed.

Lemma agree_onb_spec (indices : list nat) (a b : vec) (n : nat) :
  List.length a = n -> List.length b = n ->
  Forall (fun idx => (idx < n)%nat) indices ->
  agree_onb indices a b = true <-> agree_on indices a b.
Proof.
  intros Ha Hb Hcov. unfold agree_onb, agree_on.
  rewrite forallb_forall, Forall_forall. rewrite Forall_forall in Hcov.
  split; intros H idx Hin; specialize (H idx Hin); specialize (Hcov idx Hin).
  - rewrite (nth_error_nth' a 0), (nth_error_nth' b 0) by lia.
    apply Z.eqb_eq in H. congruence.
  - rewrite (nth_error_nth' a 0), (nth_error_nth' b 0) in H by lia.
    apply Z.eqb_eq. congruence.
Qed.

Lemma fold_left_logged {C P : Type} (q : C -> bool) (d : C -> Z)
  (payload : C -> P) (l : list C) (s0 : Z * option P) (log0 : list C) :
  fold_left (fun st c =>
               if q c then (scan_step d payload (fst st) c, snd st ++ [c])
               else st) l (s0, log0)
  = (fold_left (scan_step d payload) (filter q l) s0, log0 ++ filter q l).
Proof.
  revert s0 log0. induction l as [|c l IH]; intros s0 log0; simpl.
  - rewrite app_nil_r. reflexivity.
  - destruct (q c); simpl; rewrite IH; [|reflexivity].
    rewrite <- app_assoc. reflexivity.
Qed.

Lemma find_min_hamming_distance_in_group_scan (vectors : list vec)
  (indices : list nat) (n : nat) :
  vectors <> [] ->
  Forall (fun v => List.length v = n) vectors ->
  Forall (fun idx => (idx < n)%nat) indices ->
  find_min_hamming_distance_in_group_logged vectors indices
  = Ok (fold_left (scan_step (pair_distance vectors) (pair_at vectors))
          (filter (qualifies vectors indices)
             (index_pairs (List.length vectors)))
          (Z.of_nat n + 1, None),
        filter (qualifies vectors indices) (index_pairs (List.length vectors))).
Proof.
  intros Hne Hall Hcov. unfold find_min_hamming_distance_in_group_logged.
  rewrite py_getitem_nth by (destruct vectors; [congruence | simpl; lia]).
  cbn [bind]. unfold len at 1.
  rewrite (Forall_nth_length vectors n 0 Hall)
    by (destruct vectors; [congruence | simpl; lia]).
  rewrite for_each_nested. fold (index_pairs (List.length vectors)).
  rewrite <- (app_nil_l (filter _ _)) at 2.
  rewrite <- fold_left_logged.
  apply for_each_pure. intros [i j] st Hin. apply in_index_pairs in Hin.
  cbn [fst snd]. rewrite !py_getitem_nth by lia. cbn [bind].
  assert (Hi : List.length (nth i vectors []) = n)
    by (apply Forall_nth_length; auto; lia).
  assert (Hj : List.length (nth j vectors []) = n)
    by (apply Forall_nth_length; auto; lia).
  rewrite (all_agree_covered indices _ _ n Hi Hj Hcov). cbn [bind].
  unfold qualifies. cbn [fst snd].
  destruct (agree_onb indices (nth i vectors []) (nth j vectors []));
    [|reflexivity].
  rewrite calculate_hamming_distance_eq by congruence. cbn [bind].
  unfold scan_step, pair_distance, pair_at. cbn [fst snd].
  repeat match goal with
         | |- context [if ?c then _ else _] => destruct c
         end; reflexivity.
Qed.

(** C5. On a non-empty group of vectors of one length [n] and filter
    positions below [n], Group-Filtered Search calls the Distance Metric on
    exactly the pairs [i < j] that agree at every filter position (the
    ghost log), returns one of these pairs with its distance, no qualifying
    pair being strictly closer, and returns the sentinel (distance [n + 1],
    no pair) when no pair qualifies. *)
Theorem find_min_hamming_distance_in_group_filtered (vectors : list vec)
  (indices : list nat) (n : nat) :
  vectors <> [] ->
  Forall (fun v => List.length v = n) vectors ->
  Forall (fun idx => (idx < n)%nat) indices ->
  exists (r : search_result) (log : list (nat * nat)),
    find_min_hamming_distance_in_group_logged vectors indices = Ok (r, log) /\
    find_min_hamming_distance_in_group vectors indices = Ok r /\
    (forall i j,
        In (i, j) log <->
        (i < j < List.length vectors)%nat /\
        agree_on indices (nth i vectors []) (nth j vectors [])) /\
    match snd r with
    | Some (a, b) =>
        exists i j,
          In (i, j) log /\
          nth_error vectors i = Some a /\ nth_error vectors j = Some b /\
          calculate_hamming_distance a b = Ok (fst r) /\
          forall i' j',
            In (i', j') log ->
            exists d',
              calculate_hamming_distance (nth i' vectors []) (nth j' vectors [])
              = Ok d' /\ fst r <= d'
    | None => fst r = Z.of_nat n + 1 /\ log = []
    end.
Proof.
  intros Hne Hall Hcov.
  pose proof (find_min_hamming_distance_in_group_scan vectors indices n
                Hne Hall Hcov) as Hrun.
  set (cands := filter (qualifies vectors indices)
                  (index_pairs (List.length vectors))) in *.
  set (r := fold_left (scan_step (pair_distance vectors) (pair_at vectors))
              cands (Z.of_nat n + 1, None)) in *.
  assert (Hlen_at : forall k, (k < List.length vectors)%nat ->
                      List.length (nth k vectors []) = n)
    by (intros; apply Forall_nth_length; auto).
  assert (Hlog : forall i j,
             In (i, j) cands <->
             (i < j < List.length vectors)%nat /\
             agree_on indices (nth i vectors []) (nth j vectors [])).
  { intros i j. unfold cands. rewrite filter_In, in_index_pairs.
    unfold qualifies. cbn [fst snd]. split; intros [Hij Hq]; split; auto.
    - apply (agree_onb_spec indices _ _ n); auto; apply Hlen_at; lia.
    - apply (agree_onb_spec indices _ _ n); auto; apply Hlen_at; lia. }
  assert (Hdist : forall i j, In (i, j) cands ->
             calculate_hamming_distance (nth i vectors []) (nth j vectors [])
             = Ok (pair_distance vectors (i, j))).
  { intros i j Hin. apply Hlog in Hin as [Hij _].
    apply calculate_hamming_distance_eq. rewrite !Hlen_at by lia. reflexivity. }
  exists r, cands. split; [exact Hrun|]. split.
  { rewrite find_min_hamming_distance_in_group_erase, Hrun. reflexivity. }
  split; [exact Hlog|].
  pose proof (scan_spec (pair_distance vectors) (pair_at vectors) cands
                (Z.of_nat n + 1)) as Hscan.
  cbv zeta in Hscan. fold r in Hscan.
  destruct (snd r) as [[a b]|].
  - destruct Hscan as (l1 & [i j] & l2 & Hsplit & Hp & Hr & Hlt & H1 & H2).
    injection Hp as -> ->.
    assert (Hin : In (i, j) cands)
      by (rewrite Hsplit; apply in_or_app; right; left; reflexivity).
    pose proof (proj1 (Hlog i j) Hin) as [Hij _].
    exists i, j. split; [exact Hin|].
    split; [apply nth_error_nth'; lia|]. split; [apply nth_error_nth'; lia|].
    split; [rewrite Hr; apply Hdist; exact Hin|].
    intros i' j' Hin'. exists (pair_distance vectors (i', j')).
    split; [apply Hdist; exact Hin'|]. rewrite Hr.
    rewrite Hsplit in Hin'. rewrite Forall_forall in H1, H2.
    apply in_app_or in Hin' as [H'|[H'|H']].
    + apply H1 in H'. lia.
    + rewrite <- H'. lia.
    + apply H2 in H'. exact H'.
  - destruct Hscan as [Hr Hge]. split; [exact Hr|].
    destruct cands as [|[i j] rest] eqn:Ec; [reflexivity|]. exfalso.
    apply Forall_inv in Hge.
    assert (Hin : In (i, j) ((i, j) :: rest)) by (left; reflexivity).
    apply Hlog in Hin as [Hij _].
    pose proof (hamming_bounds (nth i vectors []) (nth j vectors [])) as Hb.
    unfold len in Hb. rewrite Hlen_at in Hb by lia.
    unfold pair_distance in Hge. cbn [fst snd] in Hge. lia.
Qed.

Lemma find_min_hamming_distance_in_group_filtered_witness :
  [[0; 0; 1]; [1; 0; 0]; [0; 1; 1]] <> [] /\
  Forall (fun v : vec => List.length v = 3%nat)
    [[0; 0; 1]; [1; 0; 0]; [0; 1; 1]] /\
  Forall (fun idx => (idx < 3)%nat) [2%nat] /\
  exists (r : search_result) (log : list (nat * nat)),
    find_min_hamming_distance_in_group_logged
      [[0; 0; 1]; [1; 0; 0]; [0; 1; 1]] [2%nat] = Ok (r, log) /\
    find_min_hamming_distance_in_group
      [[0; 0; 1]; [1; 0; 0]; [0; 1; 1]] [2%nat] = Ok r.
Proof.
  split; [discriminate|]. split; [repeat constructor|].
  split; [repeat constructor|].
  destruct (find_min_hamming_distance_in_group_filtered
              [[0; 0; 1]; [1; 0; 0]; [0; 1; 1]] [2%nat] 3)
    as (r & log & H1 & H2 & _);
    [discriminate | repeat constructor | repeat constructor |].
  exists r, log. split; assumption.
Defined.

(** ** Bucketizer *)

Lemma dict_get_append (groups : groups_dict) (key k : list Z) (v : vec) :
  dict_get (defaultdict_append groups key v) k
  = if list_eq_dec Z.eq_dec key k
    then Some (match dict_get groups key with
               | Some g => g ++ [v]
               | None => [v]
               end)
    else dict_get groups k.
Proof.
  induction groups as [|[k0 g0] rest IH]; simpl.
  - destruct (list_eq_dec Z.eq_dec key k); reflexivity.
  - destruct (list_eq_dec Z.eq_dec k0 key) as [E0|N0]; simpl.
    + subst k0. destruct (list_eq_dec Z.eq_dec key k); reflexivity.
    + rewrite IH. destruct (list_eq_dec Z.eq_dec key k) as [E|N].
      * subst k. destruct (list_eq_dec Z.eq_dec k0 key); [contradiction|].
        reflexivity.
      * reflexivity.
Qed.

Lemma dict_keys_append (groups : groups_dict) (key : list Z) (v : vec) :
  map fst (defaultdict_append groups key v)
  = if in_dec (list_eq_dec Z.eq_dec) key (map fst groups)
    then map fst groups
    else map fst groups ++ [key].
Proof.
  induction groups as [|[k0 g0] rest IH]; simpl; [reflexivity|].
  destruct (list_eq_dec Z.eq_dec k0 key) as [E|N]; simpl; [reflexivity|].
  rewrite IH.
  destruct (in_dec (list_eq_dec Z.eq_dec) key (map fst rest)); reflexivity.
Qed.

Lemma dict_keys_append_NoDup (groups : groups_dict) (key : list Z) (v : vec) :
  NoDup (map fst groups) ->
  NoDup (map fst (defaultdict_append groups key v)).
Proof.
  intros H. rewrite dict_keys_append.
  destruct (in_dec (list_eq_dec Z.eq_dec) key (map fst groups)) as [Hin|Hout];
    [exact H|].
  apply NoDup_app; [exact H | repeat constructor; intros [] |].
  intros x Hx [<-|[]]. contradiction.
Qed.

Lemma dict_values_append (groups : groups_dict) (key : list Z) (v : vec) :
  Permutation (concat (map snd (defaultdict_append groups key v)))
    (v :: concat (map snd groups)).
Proof.
  induction groups as [|[k0 g0] rest IH]; simpl; [reflexivity|].
  destruct (list_eq_dec Z.eq_dec k0 key) as [E|N]; simpl.
  - rewrite <- app_assoc. simpl. symmetry. apply Permutation_middle.
  - rewrite IH. symmetry. apply Permutation_middle.
Qed.

Lemma dict_get_In (groups : groups_dict) (k : list Z) (g : list vec) :
  NoDup (map fst groups) ->
  In (k, g) groups <-> dict_get groups k = Some g.
Proof.
  induction groups as [|[k0 g0] rest IH]; simpl; intros Hnd.
  - split; [tauto | discriminate].
  - apply NoDup_cons_iff in Hnd as [Hout Hnd].
    destruct (list_eq_dec Z.eq_dec k0 k) as [E|N].
    + subst k0. split.
      * intros [H|H]; [congruence|]. exfalso. apply Hout.
        apply (in_map fst) in H. exact H.
      * intros H. left. congruence.
    + rewrite <- (IH Hnd). split; [intros [H|H]; [congruence | exact H] | tauto].
Qed.

Lemma has_key_iff (indices : list nat) (k : list Z) (v : vec) :
  has_key indices k v = true <-> key_of indices v = Ok k.
Proof.
  unfold has_key. destruct (key_of indices v) as [k'|e].
  - destruct (list_eq_dec Z.eq_dec k k') as [E|N]; split; intros H;
      congruence.
  - split; discriminate.
Qed.

Lemma bucket_of_snoc (indices : list nat) (pre : list vec) (v : vec)
  (key k : list Z) :
  key_of indices v = Ok key ->
  bucket_of indices (pre ++ [v]) k
  = if list_eq_dec Z.eq_dec key k
    then Some (match bucket_of indices pre key with
               | Some g => g ++ [v]
               | None => [v]
               end)
    else bucket_of indices pre k.
Proof.
  intros Hkey. unfold bucket_of. rewrite filter_app. simpl.
  destruct (list_eq_dec Z.eq_dec key k) as [E|N].
  - subst k. rewrite (proj2 (has_key_iff indices key v) Hkey).
    destruct (filter (has_key indices key) pre); reflexivity.
  - destruct (has_key indices k v) eqn:Hk.
    + apply has_key_iff in Hk. congruence.
    + rewrite app_nil_r. reflexivity.
Qed.

(** The loop invariant of the Bucketizer, at the end of the loop: the
    dictionary maps every key to the vectors that carry it, in collection
    order, and its values hold every vector once. *)
Lemma group_by_key_invariant (vectors : list vec) (indices : list nat)
  (groups : groups_dict) :
  group_by_key vectors indices = Ok groups ->
  NoDup (map fst groups) /\
  (forall k, dict_get groups k = bucket_of indices vectors k) /\
  Permutation (concat (map snd groups)) vectors /\
  (forall v, In v vectors -> exists k, key_of indices v = Ok k).
Proof.
  unfold group_by_key.
  apply (for_each_invariant
           (fun pre gs =>
              NoDup (map fst gs) /\
              (forall k, dict_get gs k = bucket_of indices pre k) /\
              Permutation (concat (map snd gs)) pre /\
              (forall v, In v pre -> exists k, key_of indices v = Ok k))).
  - repeat split; [constructor | constructor | intros v []].
  - intros pre v post gs gs' _ (Hnd & Hget & Hperm & Hkeys) Hbody.
    apply bind_Ok_inv in Hbody as (key & Hkey & Hgs').
    injection Hgs' as <-. repeat split.
    + apply dict_keys_append_NoDup. exact Hnd.
    + intros k. rewrite dict_get_append, (bucket_of_snoc _ _ _ key k Hkey).
      rewrite !Hget. reflexivity.
    + rewrite dict_values_append, Hperm. apply Permutation_cons_append.
    + intros u Hu. apply in_app_or in Hu as [Hu|[<-|[]]]; [auto|].
      exists key. exact Hkey.
Qed.

Lemma bucket_of_Some (indices : list nat) (vectors : list vec) (k : list Z)
  (g : list vec) :
  bucket_of indices vectors k = Some g ->
  g = filter (has_key indices k) vectors /\ g <> [].
Proof.
  unfold bucket_of. destruct (filter (has_key indices k) vectors);
    intros H; [discriminate|]. injection H as <-. split; [reflexivity|discriminate].
Qed.

(** Every returned group is the non-empty list of the vectors that carry
    one key. *)
Lemma group_by_key_groups (vectors : list vec) (indices : list nat)
  (groups : groups_dict) (g : list vec) :
  group_by_key vectors indices = Ok groups ->
  In g (map snd groups) ->
  exists k, In (k, g) groups /\ g = filter (has_key indices k) vectors /\ g <> [].
Proof.
  intros Hrun Hin. apply group_by_key_invariant in Hrun as (Hnd & Hget & _).
  apply in_map_iff in Hin as ([k g'] & <- & Hin). exists k. simpl.
  split; [exact Hin|]. apply (dict_get_In _ _ _ Hnd) in Hin.
  rewrite Hget in Hin. apply bucket_of_Some. exact Hin.
Qed.

Lemma key_of_covered (indices : list nat) (v : vec) (n : nat) :
  List.length v = n ->
  Forall (fun idx => (idx < n)%nat) indices ->
  key_of indices v = Ok (map (fun idx => nth idx v 0) indices).
Proof.
  intros Hv. unfold key_of.
  induction 1 as [|idx rest Hidx _ IH]; simpl; [reflexivity|].
  rewrite (py_getitem_Some v idx (nth idx v 0)) by (apply nth_error_nth'; lia).
  cbn [bind]. rewrite IH. reflexivity.
Qed.

Lemma key_of_eq_agree (indices : list nat) (u v : vec) (n : nat) :
  List.length u = n -> List.length v = n ->
  Forall (fun idx => (idx < n)%nat) indices ->
  key_of indices u = key_of indices v <-> agree_on indices u v.
Proof.
  intros Hu Hv Hcov.
  rewrite (key_of_covered indices u n Hu Hcov).
  rewrite (key_of_covered indices v n Hv Hcov).
  unfold agree_on. induction Hcov as [|idx rest Hidx _ IH]; simpl.
  - split; [constructor | reflexivity].
  - rewrite Forall_cons_iff, <- IH.
    rewrite (nth_error_nth' u 0), (nth_error_nth' v 0) by lia.
    split.
    + intros H. injection H as H1 H2. split; congruence.
    + intros [H1 H2]. injection H1 as H1. congruence.
Qed.

Lemma group_by_key_covered (vectors : list vec) (indices : list nat) (n : nat) :
  Forall (fun v => List.length v = n) vectors ->
  Forall (fun idx => (idx < n)%nat) indices ->
  exists groups, group_by_key vectors indices = Ok groups.
Proof.
  intros Hall Hcov. unfold group_by_key. eexists.
  apply (for_each_pure vectors _
           (fun gs v =>
              defaultdict_append gs (map (fun idx => nth idx v 0) indices) v)).
  intros v gs Hin. rewrite Forall_forall in Hall.
  rewrite (key_of_covered indices v n (Hall v Hin) Hcov). reflexivity.
Qed.

Lemma valid_sample_covered (n : nat) (size : Z) (s : list nat) :
  valid_sample (Z.of_nat n) size s ->
  Forall (fun idx => (idx < n)%nat) s /\ 0 <= size <= Z.of_nat n.
Proof.
  intros (Hlen & Hnd & Hlt).
  assert (Hcov : Forall (fun idx => (idx < n)%nat) s)
    by (eapply Forall_impl; [|exact Hlt]; simpl; intros; lia).
  split; [exact Hcov|]. unfold len in Hlen.
  assert (List.length s <= List.length (seq 0 n))%nat.
  { apply NoDup_incl_length; [exact Hnd|]. intros i Hi.
    rewrite Forall_forall in Hcov. apply in_seq. specialize (Hcov i Hi). lia. }
  rewrite length_seq in H. lia.
Qed.

Lemma np_random_choice_valid (n : nat) (size : Z) (t : tape) :
  valid_sample (Z.of_nat n) size (t 0%nat) ->
  np_random_choice (Z.of_nat n) size t = Ok (t 0%nat, fun k => t (S k)).
Proof.
  intros Hv. pose proof (valid_sample_covered n size _ Hv) as [_ Hsize].
  unfold np_random_choice.
  destruct (Z.leb_spec (Z.of_nat n) 0) as [H0|H0]; simpl.
  - assert (size = 0) by lia. subst size. simpl.
    destruct (Z.ltb_spec (Z.of_nat n) 0); [lia|]. reflexivity.
  - destruct (Z.ltb_spec (Z.of_nat n) size); [lia|].
    destruct (Z.ltb_spec size 0); [lia|]. reflexivity.
Qed.

Lemma classify_vectors_by_random_bits_run (vectors : list vec)
  (num_of_bits : Z) (t : tape) (n : nat) :
  vectors <> [] ->
  Forall (fun v => List.length v = n) vectors ->
  valid_sample (Z.of_nat n) num_of_bits (t 0%nat) ->
  exists gs,
    group_by_key vectors (t 0%nat) = Ok gs /\
    classify_vectors_by_random_bits vectors num_of_bits t
    = Ok (map snd gs, fun k => t (S k)).
Proof.
  intros Hne Hall Hvalid.
  pose proof (valid_sample_covered n num_of_bits _ Hvalid) as [Hcov _].
  destruct (group_by_key_covered vectors (t 0%nat) n Hall Hcov) as [gs Hrun].
  exists gs. split; [exact Hrun|].
  unfold classify_vectors_by_random_bits.
  destruct vectors as [|v0 rest]; [congruence|].
  unfold bindM, lift, ret. cbn [py_getitem nth_error].
  unfold len. rewrite (Forall_inv Hall).
  rewrite (np_random_choice_valid n num_of_bits t Hvalid).
  rewrite Hrun. reflexivity.
Qed.

(** C6. On a non-empty collection of vectors of one length [n] and a
    grouping sample of distinct positions below [n], the Bucketizer
    returns groups that partition the collection: no group is empty, the
    groups together hold the vectors of the collection with their
    multiplicities, every vector lies in a group at exactly one position of
    the returned list, and two vectors share a group exactly when they
    agree at all sampled positions. *)
Theorem classify_vectors_by_random_bits_partition (vectors : list vec)
  (num_of_bits : Z) (t : tape) (n : nat) :
  vectors <> [] ->
  Forall (fun v => List.length v = n) vectors ->
  valid_sample (Z.of_nat n) num_of_bits (t 0%nat) ->
  exists groups : list (list vec),
    classify_vectors_by_random_bits vectors num_of_bits t
    = Ok (groups, fun k => t (S k)) /\
    Forall (fun g => g <> []) groups /\
    Permutation (concat groups) vectors /\
    (forall v, In v vectors ->
       exists gi g,
         nth_error groups gi = Some g /\ In v g /\
         forall gj g', nth_error groups gj = Some g' -> In v g' -> gj = gi) /\
    (forall u v, In u vectors -> In v vectors ->
       (exists g, In g groups /\ In u g /\ In v g) <-> agree_on (t 0%nat) u v).
Proof.
  intros Hne Hall Hvalid.
  pose proof (valid_sample_covered n num_of_bits _ Hvalid) as [Hcov _].
  destruct (classify_vectors_by_random_bits_run vectors num_of_bits t n
              Hne Hall Hvalid) as (gs & Hrun & Hclassify).
  pose proof (group_by_key_invariant _ _ _ Hrun) as (Hnd & Hget & Hperm & _).
  assert (Hkey : forall v, In v vectors ->
            key_of (t 0%nat) v = Ok (map (fun idx => nth idx v 0) (t 0%nat))).
  { intros v Hv. rewrite Forall_forall in Hall.
    apply (key_of_covered _ v n); auto. }
  assert (Hgroup : forall k g, In (k, g) gs ->
            g = filter (has_key (t 0%nat) k) vectors /\ g <> []).
  { intros k g Hin. apply (dict_get_In _ _ _ Hnd) in Hin.
    rewrite Hget in Hin. apply bucket_of_Some. exact Hin. }
  assert (Hhome : forall v k, In v vectors -> key_of (t 0%nat) v = Ok k ->
            exists g, In (k, g) gs /\ In v g).
  { intros v k Hv Hk.
    assert (Hf : In v (filter (has_key (t 0%nat) k) vectors))
      by (apply filter_In; split; [exact Hv | apply has_key_iff; exact Hk]).
    destruct (bucket_of (t 0%nat) vectors k) as [g|] eqn:Hb.
    - exists g. pose proof (bucket_of_Some _ _ _ _ Hb) as [-> _].
      split; [|exact Hf]. apply (dict_get_In _ _ _ Hnd). rewrite Hget. exact Hb.
    - unfold bucket_of in Hb.
      destruct (filter (has_key (t 0%nat) k) vectors); [destruct Hf | discriminate]. }
  exists (map snd gs). split; [exact Hclassify|].
  split.
  { apply Forall_forall. intros g Hg.
    apply in_map_iff in Hg as ([k g'] & <- & Hin). apply (Hgroup k g' Hin). }
  split; [exact Hperm|]. split.
  - intros v Hv. destruct (Hhome v _ Hv (Hkey v Hv)) as (g & Hin & Hvg).
    apply In_nth_error in Hin as [gi Hgi]. exists gi, g.
    split; [rewrite nth_error_map, Hgi; reflexivity|]. split; [exact Hvg|].
    intros gj g' Hgj Hvg'. rewrite nth_error_map in Hgj.
    destruct (nth_error gs gj) as [[k' g'']|] eqn:Egj; [|discriminate].
    injection Hgj as ->.
    pose proof (nth_error_In _ _ Egj) as Hin'.
    destruct (Hgroup k' g' Hin') as [Hg' _]. rewrite Hg' in Hvg'.
    apply filter_In in Hvg' as [_ Hk']. apply has_key_iff in Hk'.
    rewrite (Hkey v Hv) in Hk'. injection Hk' as Hk'.
    apply (proj1 (NoDup_nth_error (map fst gs)) Hnd).
    + rewrite length_map. apply nth_error_Some. congruence.
    + rewrite !nth_error_map, Egj, Hgi. simpl. congruence.
  - intros u v Hu Hv.
    rewrite Forall_forall in Hall.
    rewrite <- (key_of_eq_agree (t 0%nat) u v n (Hall u Hu) (Hall v Hv) Hcov).
    split.
    + intros (g & Hg & Hug & Hvg).
      apply in_map_iff in Hg as ([k g'] & <- & Hin). simpl in Hug, Hvg.
      destruct (Hgroup k g' Hin) as [Hg' _]. rewrite Hg' in Hug, Hvg.
      apply filter_In in Hug as [_ Hku], Hvg as [_ Hkv].
      apply has_key_iff in Hku, Hkv. congruence.
    + intros Heq. destruct (Hhome u _ Hu (Hkey u Hu)) as (g & Hin & Hug).
      exists g. split; [apply (in_map snd) in Hin; exact Hin|].
      split; [exact Hug|].
      destruct (Hgroup _ g Hin) as [Hg' _]. rewrite Hg'.
      apply filter_In. split; [exact Hv|]. apply has_key_iff.
      rewrite <- Heq. apply Hkey. exact Hu.
Qed.

Lemma classify_vectors_by_random_bits_partition_witness :
  [[0; 0; 1]; [1; 0; 0]; [0; 1; 1]] <> [] /\
  Forall (fun v : vec => List.length v = 3%nat)
    [[0; 0; 1]; [1; 0; 0]; [0; 1; 1]] /\
  valid_sample 3 1 [2%nat] /\
  exists groups : list (list vec),
    classify_vectors_by_random_bits [[0; 0; 1]; [1; 0; 0]; [0; 1; 1]] 1
      (fun _ => [2%nat])
    = Ok (groups, fun _ => [2%nat]) /\
    Permutation (concat groups) [[0; 0; 1]; [1; 0; 0]; [0; 1; 1]].
Proof.
  assert (Hv : valid_sample (Z.of_nat 3) 1 [2%nat]).
  { split; [reflexivity|]. split; [repeat constructor; intros []|].
    repeat constructor. }
  split; [discriminate|]. split; [repeat constructor|]. split; [exact Hv|].
  destruct (classify_vectors_by_random_bits_partition
              [[0; 0; 1]; [1; 0; 0]; [0; 1; 1]] 1 (fun _ => [2%nat]) 3)
    as (groups & Hrun & _ & Hperm & _);
    [discriminate | repeat constructor | exact Hv |].
  exists groups. split; assumption.
Defined.

(** ** The minimum of a list of results *)

Lemma tuple_lt_true (item best : search_result) :
  tuple_lt item best = Ok true -> fst item <= fst best.
Proof.
  unfold tuple_lt. destruct (Z.eqb_spec (fst item) (fst best)) as [E|N].
  - intros _. lia.
  - intros H. injection H as H. apply Z.ltb_lt in H. lia.
Qed.

Lemma tuple_lt_false (item best : search_result) :
  tuple_lt item best = Ok false -> fst best <= fst item.
Proof.
  unfold tuple_lt. destruct (Z.eqb_spec (fst item) (fst best)) as [E|N].
  - intros _. lia.
  - intros H. injection H as H. apply Z.ltb_ge in H. exact H.
Qed.

Lemma tuple_lt_defined (item best : search_result) :
  (fst item = fst best -> (snd item = None <-> snd best = None)) ->
  exists b, tuple_lt item best = Ok b.
Proof.
  unfold tuple_lt. destruct (Z.eqb_spec (fst item) (fst best)) as [E|N];
    [|eexists; reflexivity].
  intros H. specialize (H E).
  destruct (snd item) as [p|], (snd best) as [q|]; try (eexists; reflexivity).
  - destruct H as [_ H]. specialize (H eq_refl). discriminate.
  - destruct H as [H _]. specialize (H eq_refl). discriminate.
Qed.

(** Whenever [min] returns, it returns an entry of the list with the
    smallest distance. *)
Lemma py_min_sound (results : list search_result) (r : search_result) :
  py_min results = Ok r ->
  In r results /\ forall x, In x results -> fst r <= fst x.
Proof.
  destruct results as [|x0 rest]; [discriminate|]. unfold py_min.
  intros Hrun.
  apply (for_each_invariant
           (fun pre best =>
              In best (x0 :: pre) /\
              forall x, In x (x0 :: pre) -> fst best <= fst x)) in Hrun;
    [exact Hrun | |].
  - split; [left; reflexivity|]. intros x [<-|[]]. lia.
  - intros pre item post best best' _ [Hin Hle] Hbody.
    apply bind_Ok_inv in Hbody as (b & Hlt & Hbest').
    injection Hbest' as <-. destruct b.
    + apply tuple_lt_true in Hlt. split.
      * right. apply in_or_app. right. left. reflexivity.
      * intros x [<-|Hx]; [specialize (Hle x0 (or_introl eq_refl)); lia|].
        apply in_app_or in Hx as [Hx|[<-|[]]]; [|lia].
        specialize (Hle x (or_intror Hx)). lia.
    + apply tuple_lt_false in Hlt. split.
      * destruct Hin as [Hin|Hin]; [left; exact Hin|].
        right. apply in_or_app. left. exact Hin.
      * intros x [<-|Hx]; [apply Hle; left; reflexivity|].
        apply in_app_or in Hx as [Hx|[<-|[]]]; [|exact Hlt].
        apply Hle. right. exact Hx.
Qed.

Lemma py_min_loop_defined (all rest : list search_result)
  (best : search_result) :
  tie_free all -> In best all -> incl rest all ->
  exists r,
    for_each rest (fun item best =>
      lt <- tuple_lt item best ;; Ok (if lt then item else best)) best = Ok r.
Proof.
  intros Htf. revert best.
  induction rest as [|item rest IH]; intros best Hbest Hincl; simpl;
    [eexists; reflexivity|].
  assert (Hitem : In item all) by (apply Hincl; left; reflexivity).
  destruct (tuple_lt_defined item best (Htf item best Hitem Hbest)) as [b ->].
  cbn [bind]. apply IH.
  - destruct b; assumption.
  - intros x Hx. apply Hincl. right. exact Hx.
Qed.

Lemma py_min_defined (results : list search_result) :
  results <> [] -> tie_free results -> exists r, py_min results = Ok r.
Proof.
  destruct results as [|x0 rest]; [congruence|]. intros _ Htf. unfold py_min.
  apply (py_min_loop_defined (x0 :: rest)); [exact Htf | left; reflexivity |].
  intros x Hx. right. exact Hx.
Qed.

Lemma well_formed_tie_free (n : Z) (results : list search_result) :
  Forall (well_formed n) results -> tie_free results.
Proof.
  intros Hall x y Hx Hy E. rewrite Forall_forall in Hall.
  pose proof (Hall x Hx) as Wx. pose proof (Hall y Hy) as Wy.
  unfold well_formed in Wx, Wy.
  destruct (snd x), (snd y); split; intros H; try congruence; lia.
Qed.

(** C3 (as amended). On a non-empty list of results in which no entry
    without a pair shares its distance with an entry that has a pair, the
    minimum-reduction used for the groups of a round and for the rounds
    raises nothing and returns an entry of the list whose distance is the
    smallest of the list, whether or not sentinel entries are present. *)
Theorem py_min_smallest (results : list search_result) :
  results <> [] ->
  tie_free results ->
  exists r,
    py_min results = Ok r /\ In r results /\
    forall x, In x results -> fst r <= fst x.
Proof.
  intros Hne Htf. destruct (py_min_defined results Hne Htf) as [r Hr].
  exists r. split; [exact Hr|]. apply py_min_sound. exact Hr.
Qed.

Lemma py_min_smallest_witness :
  [(4, None); (2, Some ([0; 0; 1], [1; 0; 0])); (4, None)] <> [] /\
  tie_free [(4, None); (2, Some ([0; 0; 1], [1; 0; 0])); (4, None)] /\
  exists r,
    py_min [(4, None); (2, Some ([0; 0; 1], [1; 0; 0])); (4, None)] = Ok r /\
    In r [(4, None); (2, Some ([0; 0; 1], [1; 0; 0])); (4, None)] /\
    forall x,
      In x [(4, None); (2, Some ([0; 0; 1], [1; 0; 0])); (4, None)] ->
      fst r <= fst x.
Proof.
  assert (Htf : tie_free
                  [(4, None); (2, Some ([0; 0; 1], [1; 0; 0])); (4, None)]).
  { apply (well_formed_tie_free 3). repeat constructor; simpl; lia. }
  split; [discriminate|]. split; [exact Htf|].
  apply (py_min_smallest
           [(4, None); (2, Some ([0; 0; 1], [1; 0; 0])); (4, None)]);
    [discriminate | exact Htf].
Defined.

(** ** Soundness of the LSH search: every result is a sentinel or a pair *)

Lemma find_min_hamming_distance_in_group_sound (group : list vec)
  (indices : list nat) (n : nat) (r : search_result) :
  group <> [] ->
  Forall (fun v => List.length v = n) group ->
  find_min_hamming_distance_in_group group indices = Ok r ->
  sentinel_or_pair group (Z.of_nat n) r.
Proof.
  intros Hne Hall. unfold find_min_hamming_distance_in_group.
  rewrite py_getitem_nth by (destruct group; [congruence | simpl; lia]).
  cbn [bind]. unfold len at 1.
  rewrite (Forall_nth_length group n 0 Hall)
    by (destruct group; [congruence | simpl; lia]).
  rewrite for_each_nested. fold (index_pairs (List.length group)).
  intros Hrun.
  apply (for_each_invariant
           (fun _ st => sentinel_or_pair group (Z.of_nat n) st)) in Hrun;
    [exact Hrun | left; reflexivity |].
  intros pre [i j] post s s' Hsplit Hs Hbody.
  assert (Hij : (i < j < List.length group)%nat).
  { apply in_index_pairs. rewrite Hsplit. apply in_or_app. right. left.
    reflexivity. }
  cbn [fst snd] in Hbody. rewrite !py_getitem_nth in Hbody by lia.
  cbn [bind] in Hbody.
  destruct (all_agree _ _ indices) as [[|]|e]; cbn [bind] in Hbody;
    [| congruence | discriminate].
  rewrite calculate_hamming_distance_eq in Hbody
    by (rewrite !(Forall_nth_length group n) by (auto; lia); reflexivity).
  cbn [bind] in Hbody. injection Hbody as <-.
  destruct (_ <? _); [|exact Hs].
  right. exists i, j. split; [exact Hij | reflexivity].
Qed.

Lemma filter_position {A : Type} (f : A -> bool) (l : list A) (d : A)
  (k : nat) :
  (k < List.length (filter f l))%nat ->
  exists k', (k' < List.length l)%nat /\ nth k (filter f l) d = nth k' l d.
Proof.
  intros Hk.
  assert (Hin : In (nth k (filter f l) d) l).
  { pose proof (nth_In (filter f l) d Hk) as H. apply filter_In in H. tauto. }
  destruct (In_nth l _ d Hin) as (k' & Hk' & E). exists k'. split; congruence.
Qed.

(** A filter keeps the order: two positions [i < j] of the filtered list
    come from two positions [i' < j'] of the list. *)
Lemma filter_pair_positions {A : Type} (f : A -> bool) (l : list A) (d : A)
  (i j : nat) :
  (i < j < List.length (filter f l))%nat ->
  exists i' j',
    (i' < j' < List.length l)%nat /\
    nth i (filter f l) d = nth i' l d /\ nth j (filter f l) d = nth j' l d.
Proof.
  revert i j. induction l as [|x l IH]; intros i j Hij; simpl in *; [lia|].
  destruct (f x) eqn:Hfx; simpl in *.
  - destruct i as [|i], j as [|j]; try lia.
    + destruct (filter_position f l d j) as (j' & Hj' & E); [lia|].
      exists 0%nat, (S j'). split; [lia|]. split; [reflexivity | exact E].
    + destruct (IH i j) as (i' & j' & H & E1 & E2); [lia|].
      exists (S i'), (S j'). split; [lia|]. split; assumption.
  - destruct (IH i j Hij) as (i' & j' & H & E1 & E2).
    exists (S i'), (S j'). split; [lia|]. split; assumption.
Qed.

Lemma sentinel_or_pair_filter (f : vec -> bool) (vectors : list vec) (n : Z)
  (r : search_result) :
  sentinel_or_pair (filter f vectors) n r -> sentinel_or_pair vectors n r.
Proof.
  intros [H|(i & j & Hij & H)]; [left; exact H|]. right.
  destruct (filter_pair_positions f vectors [] i j Hij) as (i' & j' & H' & E1 & E2).
  exists i', j'. split; [exact H'|]. rewrite H. unfold pair_distance.
  cbn [fst snd]. rewrite E1, E2. reflexivity.
Qed.

Lemma bindM_Ok_inv {A B : Type} (c : M A) (k : A -> M B) (t t' : tape) (b : B) :
  bindM c k t = Ok (b, t') ->
  exists a t1, c t = Ok (a, t1) /\ k a t1 = Ok (b, t').
Proof.
  unfold bindM. destruct (c t) as [[a t1]|e]; intros H; [eauto | discriminate].
Qed.

Lemma lift_Ok_inv {A : Type} (c : result A) (t t' : tape) (a : A) :
  lift c t = Ok (a, t') -> c = Ok a /\ t' = t.
Proof.
  unfold lift. destruct c; intros H; [|discriminate].
  injection H as -> ->. split; reflexivity.
Qed.

Lemma repeat_M_invariant {S : Type} (P : S -> Prop) (n : nat)
  (body : S -> M S) (st st' : S) (t t' : tape) :
  P st ->
  (forall s s' t1 t2, P s -> body s t1 = Ok (s', t2) -> P s') ->
  repeat_M n body st t = Ok (st', t') -> P st'.
Proof.
  intros H0 Hstep. revert st t H0.
  induction n as [|n IH]; intros st t H0 Hrun; simpl in Hrun.
  - unfold ret in Hrun. injection Hrun as <- _. exact H0.
  - apply bindM_Ok_inv in Hrun as (s1 & t1 & Hb & Hrun).
    apply (IH s1 t1); [eapply Hstep; eauto | exact Hrun].
Qed.

Lemma classify_vectors_by_random_bits_sound (vectors : list vec)
  (num_of_bits : Z) (t t' : tape) (groups : list (list vec)) :
  classify_vectors_by_random_bits vectors num_of_bits t = Ok (groups, t') ->
  forall g, In g groups -> g <> [] /\ exists f, g = filter f vectors.
Proof.
  unfold classify_vectors_by_random_bits.
  destruct vectors as [|v0 rest].
  - unfold ret. intros H. injection H as <- _. intros g [].
  - intros Hrun g Hg.
    apply bindM_Ok_inv in Hrun as (v & t1 & _ & Hrun).
    apply bindM_Ok_inv in Hrun as (indices & t2 & _ & Hrun).
    apply bindM_Ok_inv in Hrun as (gs & t3 & Hgs & Hrun).
    apply lift_Ok_inv in Hgs as [Hgs _].
    unfold ret in Hrun. injection Hrun as <- _.
    destruct (group_by_key_groups _ _ _ g Hgs Hg) as (k & _ & Hfilter & Hne).
    split; [exact Hne|]. eexists. exact Hfilter.
Qed.

Lemma find_min_hamming_distance_across_groups_sound
  (groups : list (list vec)) (vector_length num_of_sample_bits : Z)
  (t t' : tape) (r : search_result) :
  find_min_hamming_distance_across_groups groups vector_length
    num_of_sample_bits t = Ok (r, t') ->
  exists g sample_bits,
    In g groups /\ find_min_hamming_distance_in_group g sample_bits = Ok r.
Proof.
  unfold find_min_hamming_distance_across_groups. intros Hrun.
  apply bindM_Ok_inv in Hrun as (sample_bits & t1 & _ & Hrun).
  apply bindM_Ok_inv in Hrun as (min_values & t2 & Hloop & Hrun).
  apply lift_Ok_inv in Hloop as [Hloop _].
  apply lift_Ok_inv in Hrun as [Hmin _].
  apply py_min_sound in Hmin as [Hin _].
  assert (Hinv : forall x, In x min_values ->
            exists g, In g groups /\
              find_min_hamming_distance_in_group g sample_bits = Ok x);
    [|destruct (Hinv r Hin) as (g & Hg & Hr); exists g, sample_bits; auto].
  eapply (for_each_invariant
            (fun pre mv =>
               forall x, In x mv ->
                 exists g, In g pre /\
                   find_min_hamming_distance_in_group g sample_bits = Ok x));
    [ | | exact Hloop].
  - intros x [].
  - intros pre g post mv mv' _ Hmv Hbody.
    apply bind_Ok_inv in Hbody as (x0 & Hx0 & Hmv'). injection Hmv' as <-.
    intros x Hx. apply in_app_or in Hx as [Hx|[<-|[]]].
    + destruct (Hmv x Hx) as (g' & Hg' & Hr'). exists g'.
      split; [apply in_or_app; left; exact Hg' | exact Hr'].
    + exists g. split; [apply in_or_app; right; left; reflexivity | exact Hx0].
Qed.

Lemma find_min_hamming_distance_lower_bound (vectors : list vec) (n : nat) :
  vectors <> [] ->
  Forall (fun v => List.length v = n) vectors ->
  exists e,
    find_min_hamming_distance vectors = Ok e /\
    forall r, sentinel_or_pair vectors (Z.of_nat n) r -> fst e <= fst r.
Proof.
  intros Hne Hall. eexists. split;
    [apply (find_min_hamming_distance_scan vectors n Hne Hall)|].
  pose proof (scan_spec (pair_distance vectors) (pair_at vectors)
                (index_pairs (List.length vectors)) (Z.of_nat n + 1)) as Hscan.
  cbv zeta in Hscan.
  destruct (fold_left _ _ _) as [d [p|]]; cbn [fst snd] in *.
  - destruct Hscan as (l1 & c & l2 & Hsplit & _ & -> & Hlt & H1 & H2).
    intros r [Hr|(i & j & Hij & Hr)]; [lia|]. rewrite Hr.
    apply in_index_pairs in Hij. rewrite Hsplit in Hij.
    rewrite Forall_forall in H1, H2.
    apply in_app_or in Hij as [H|[H|H]].
    + apply H1 in H. lia.
    + rewrite <- H. lia.
    + apply H2 in H. exact H.
  - destruct Hscan as [-> Hge]. rewrite Forall_forall in Hge.
    intros r [Hr|(i & j & Hij & Hr)]; [lia|]. rewrite Hr.
    apply Hge. apply in_index_pairs. exact Hij.
Qed.

Lemma lsh_round_sound (vectors : list vec) (n : nat)
  (num_of_lsh_bits log_n : Z) (results results' : list search_result)
  (t t' : tape) :
  vectors <> [] ->
  Forall (fun v => List.length v = n) vectors ->
  Forall (sentinel_or_pair vectors (Z.of_nat n)) results ->
  lsh_round vectors num_of_lsh_bits log_n results t = Ok (results', t') ->
  Forall (sentinel_or_pair vectors (Z.of_nat n)) results'.
Proof.
  intros Hne Hall Hres Hrun. unfold lsh_round in Hrun.
  apply bindM_Ok_inv in Hrun as (groups & t1 & Hgroups & Hrun).
  apply bindM_Ok_inv in Hrun as (v0 & t2 & _ & Hrun).
  apply bindM_Ok_inv in Hrun as (r & t3 & Hr & Hrun).
  unfold ret in Hrun. injection Hrun as <- _.
  apply Forall_app. split; [exact Hres|]. constructor; [|constructor].
  apply find_min_hamming_distance_across_groups_sound in Hr
    as (g & sample_bits & Hg & Hr).
  destruct (classify_vectors_by_random_bits_sound _ _ _ _ _ Hgroups g Hg)
    as (Hgne & f & Hf).
  subst g. apply (sentinel_or_pair_filter f).
  apply (find_min_hamming_distance_in_group_sound _ sample_bits n r Hgne);
    [|exact Hr].
  apply Forall_forall. intros v Hv. apply filter_In in Hv as [Hv _].
  rewrite Forall_forall in Hall. apply Hall. exact Hv.
Qed.

(** Whatever the widths and the draws, a result returned by the LSH
    Aggregator is the sentinel or the distance of two vectors at distinct
    positions of the collection. *)
Lemma find_min_hamming_using_LSH_sound (libm_log2 : float -> float)
  (vectors : list vec) (n : nat) (iterations : Z) (t t' : tape)
  (r : search_result) :
  vectors <> [] ->
  Forall (fun v => List.length v = n) vectors ->
  find_min_hamming_using_LSH libm_log2 vectors iterations t = Ok (r, t') ->
  sentinel_or_pair vectors (Z.of_nat n) r.
Proof.
  intros Hne Hall Hrun. unfold find_min_hamming_using_LSH in Hrun.
  apply bindM_Ok_inv in Hrun as ([num_of_lsh_bits log_n] & t1 & _ & Hrun).
  apply bindM_Ok_inv in Hrun as (results & t2 & Hloop & Hrun).
  apply lift_Ok_inv in Hrun as [Hmin _].
  apply py_min_sound in Hmin as [Hin _].
  apply (repeat_M_invariant (Forall (sentinel_or_pair vectors (Z.of_nat n))))
    in Hloop.
  - rewrite Forall_forall in Hloop. apply Hloop. exact Hin.
  - constructor.
  - intros s s' ta tb Hs Hbody.
    apply (lsh_round_sound vectors n _ _ s s' ta tb Hne Hall Hs Hbody).
Qed.

(** ** The LSH search returns on admissible draws *)

Lemma find_min_hamming_distance_in_group_well_formed (group : list vec)
  (indices : list nat) (n : nat) :
  group <> [] ->
  Forall (fun v => List.length v = n) group ->
  Forall (fun idx => (idx < n)%nat) indices ->
  exists r,
    find_min_hamming_distance_in_group group indices = Ok r /\
    well_formed (Z.of_nat n) r.
Proof.
  intros Hne Hall Hcov.
  rewrite find_min_hamming_distance_in_group_erase.
  rewrite (find_min_hamming_distance_in_group_scan group indices n Hne Hall Hcov).
  cbn [bind fst]. eexists. split; [reflexivity|].
  pose proof (scan_spec (pair_distance group) (pair_at group)
                (filter (qualifies group indices)
                   (index_pairs (List.length group))) (Z.of_nat n + 1)) as Hscan.
  cbv zeta in Hscan. unfold well_formed.
  destruct (snd _) as [p|]; [|tauto].
  destruct Hscan as (l1 & [i j] & l2 & Hsplit & _ & -> & _).
  assert (Hin : In (i, j) (filter (qualifies group indices)
                             (index_pairs (List.length group))))
    by (rewrite Hsplit; apply in_or_app; right; left; reflexivity).
  apply filter_In in Hin as [Hin _]. apply in_index_pairs in Hin.
  pose proof (hamming_bounds (nth i group []) (nth j group [])) as Hb.
  unfold len in Hb. rewrite (Forall_nth_length group n i Hall) in Hb by lia.
  exact Hb.
Qed.

Lemma for_each_collect {A B : Type} (Q : B -> Prop) (f : A -> result B)
  (xs : list A) (acc : list B) :
  (forall x, In x xs -> exists y, f x = Ok y /\ Q y) ->
  exists ys,
    for_each xs (fun x acc => y <- f x ;; Ok (acc ++ [y])) acc
    = Ok (acc ++ ys) /\
    Forall Q ys /\ List.length ys = List.length xs.
Proof.
  revert acc. induction xs as [|x xs IH]; intros acc H; simpl.
  - exists []. rewrite app_nil_r. repeat split. constructor.
  - destruct (H x (or_introl eq_refl)) as (y & -> & Hy). cbn [bind].
    destruct (IH (acc ++ [y])) as (ys & -> & Hys & Hlen);
      [intros z Hz; apply H; right; exact Hz|].
    exists (y :: ys). rewrite <- app_assoc. simpl.
    repeat split; [constructor; assumption | congruence].
Qed.

Lemma find_min_hamming_distance_across_groups_defined
  (groups : list (list vec)) (n : nat) (num_of_sample_bits : Z) (t : tape) :
  groups <> [] ->
  (forall g, In g groups ->
     g <> [] /\ Forall (fun v => List.length v = n) g) ->
  valid_sample (Z.of_nat n) num_of_sample_bits (t 0%nat) ->
  exists r,
    find_min_hamming_distance_across_groups groups (Z.of_nat n)
      num_of_sample_bits t = Ok (r, fun k => t (S k)) /\
    well_formed (Z.of_nat n) r.
Proof.
  intros Hne Hgroups Hvalid.
  pose proof (valid_sample_covered n _ _ Hvalid) as [Hcov _].
  unfold find_min_hamming_distance_across_groups, bindM.
  rewrite (np_random_choice_valid n _ t Hvalid).
  destruct (for_each_collect (well_formed (Z.of_nat n))
              (fun g => find_min_hamming_distance_in_group g (t 0%nat))
              groups []) as (mv & -> & Hwf & Hlen).
  { intros g Hg. destruct (Hgroups g Hg) as [Hgne Hgall].
    apply find_min_hamming_distance_in_group_well_formed; assumption. }
  cbn [lift app].
  destruct (py_min_defined mv) as [r Hr].
  - destruct groups; [congruence|]. destruct mv; [discriminate|congruence].
  - apply (well_formed_tie_free (Z.of_nat n)). exact Hwf.
  - exists r. rewrite Hr. split; [reflexivity|].
    apply py_min_sound in Hr as [Hin _]. rewrite Forall_forall in Hwf. auto.
Qed.

Lemma lsh_round_defined (vectors : list vec) (n : nat)
  (num_of_lsh_bits log_n : Z) (results : list search_result) (t : tape) :
  vectors <> [] ->
  Forall (fun v => List.length v = n) vectors ->
  valid_sample (Z.of_nat n) num_of_lsh_bits (t 0%nat) ->
  valid_sample (Z.of_nat n) log_n (t 1%nat) ->
  exists r,
    lsh_round vectors num_of_lsh_bits log_n results t
    = Ok (results ++ [r], fun k => t (S (S k))) /\
    well_formed (Z.of_nat n) r.
Proof.
  intros Hne Hall Hv0 Hv1.
  destruct (classify_vectors_by_random_bits_run vectors num_of_lsh_bits t n
              Hne Hall Hv0) as (gs & Hgs & Hclassify).
  pose proof (group_by_key_invariant _ _ _ Hgs) as (_ & _ & Hperm & _).
  destruct (find_min_hamming_distance_across_groups_defined (map snd gs) n
              log_n (fun k => t (S k))) as (r & Hr & Hwf).
  - intros E. rewrite E in Hperm. simpl in Hperm.
    apply Permutation_nil in Hperm. congruence.
  - intros g Hg.
    destruct (classify_vectors_by_random_bits_sound _ _ _ _ _ Hclassify g Hg)
      as (Hgne & f & ->).
    split; [exact Hgne|]. apply Forall_forall. intros v Hv.
    apply filter_In in Hv as [Hv _]. rewrite Forall_forall in Hall. auto.
  - exact Hv1.
  - exists r. split; [|exact Hwf].
    unfold lsh_round, bindM. rewrite Hclassify.
    destruct vectors as [|v0 rest]; [congruence|].
    cbn [lift py_getitem nth_error]. unfold len at 1.
    rewrite (Forall_inv Hall), Hr. reflexivity.
Qed.

Lemma lsh_rounds_defined (vectors : list vec) (n : nat)
  (num_of_lsh_bits log_n : Z) (rounds : nat) :
  vectors <> [] ->
  Forall (fun v => List.length v = n) vectors ->
  forall (results : list search_result) (t : tape),
    Forall (well_formed (Z.of_nat n)) results ->
    admissible_tape (Z.of_nat n) num_of_lsh_bits log_n rounds t ->
    exists results' t',
      repeat_M rounds (lsh_round vectors num_of_lsh_bits log_n) results t
      = Ok (results', t') /\
      Forall (well_formed (Z.of_nat n)) results' /\
      List.length results' = (List.length results + rounds)%nat.
Proof.
  intros Hne Hall. induction rounds as [|rounds IH]; intros results t Hwf Hadm.
  - exists results, t. simpl. repeat split; [exact Hwf | lia].
  - destruct (Hadm 0%nat) as [Hv0 Hv1]; [lia|].
    destruct (lsh_round_defined vectors n num_of_lsh_bits log_n results t
                Hne Hall Hv0 Hv1) as (r & Hr & Hwfr).
    destruct (IH (results ++ [r]) (fun k => t (S (S k))))
      as (results' & t' & Hrun & Hwf' & Hlen).
    + apply Forall_app. split; [exact Hwf | repeat constructor; exact Hwfr].
    + intros i Hi. destruct (Hadm (S i)) as [Ha Hb]; [lia|].
      replace (2 * S i)%nat with (S (S (2 * i))) in Ha by lia.
      replace (2 * S i + 1)%nat with (S (S (2 * i + 1))) in Hb by lia.
      split; assumption.
    + exists results', t'. simpl. unfold bindM at 1. rewrite Hr.
      split; [exact Hrun|]. split; [exact Hwf'|].
      rewrite Hlen, length_app. simpl. lia.
Qed.

(** With at least one round, widths that the formulas produce, and draws
    that answer the calls, the LSH Aggregator returns a result. *)
Lemma find_min_hamming_using_LSH_defined (libm_log2 : float -> float)
  (vectors : list vec) (n : nat) (iterations : Z) (t : tape)
  (num_of_lsh_bits log_n : Z) :
  vectors <> [] ->
  Forall (fun v => List.length v = n) vectors ->
  1 <= iterations ->
  lsh_widths libm_log2 vectors = Ok (num_of_lsh_bits, log_n) ->
  admissible_tape (Z.of_nat n) num_of_lsh_bits log_n (Z.to_nat iterations) t ->
  exists r t',
    find_min_hamming_using_LSH libm_log2 vectors iterations t = Ok (r, t') /\
    well_formed (Z.of_nat n) r.
Proof.
  intros Hne Hall Hit Hwidths Hadm.
  destruct (lsh_rounds_defined vectors n num_of_lsh_bits log_n
              (Z.to_nat iterations) Hne Hall [] t)
    as (results & t' & Hrun & Hwf & Hlen); [constructor | exact Hadm |].
  destruct (py_min_defined results) as [r Hr].
  - destruct results; [simpl in Hlen; lia | congruence].
  - apply (well_formed_tie_free (Z.of_nat n)). exact Hwf.
  - exists r, t'. split.
    + unfold find_min_hamming_using_LSH, bindM. rewrite Hwidths.
      cbn [lift]. rewrite Hrun, Hr. reflexivity.
    + apply py_min_sound in Hr as [Hin _]. rewrite Forall_forall in Hwf. auto.
Qed.

(** ** The width formulas on degenerate inputs *)

Lemma py_round_fault (x : float) (e : exn) :
  py_round x = Err e -> arithmetic_fault e.
Proof.
  unfold py_round, arithmetic_fault.
  destruct (PrimFloat.is_nan x); [intros H; injection H as <-; tauto|].
  destruct (PrimFloat.is_infinity x); [intros H; injection H as <-; tauto|].
  discriminate.
Qed.

Lemma math_log2_int_fault (libm_log2 : float -> float) (n : Z) (e : exn) :
  math_log2_int libm_log2 n = Err e -> e = math_domain_error /\ n <= 0.
Proof.
  unfold math_log2_int. destruct (Z.leb_spec n 0) as [Hn|Hn]; [|discriminate].
  intros He. injection He as <-. split; [reflexivity | exact Hn].
Qed.

Lemma math_log2_fault (libm_log2 : float -> float) (x : float) (e : exn) :
  math_log2 libm_log2 x = Err e -> e = math_domain_error.
Proof.
  unfold math_log2.
  repeat match goal with
         | |- context [if ?c then _ else _] => destruct c
         end; intros H; congruence.
Qed.

Lemma num_of_lsh_bits_of_fault (libm_log2 : float -> float)
  (vectors : list vec) (e : exn) :
  num_of_lsh_bits_of libm_log2 vectors = Err e -> arithmetic_fault e.
Proof.
  unfold num_of_lsh_bits_of.
  destruct (math_log2_int libm_log2 (len vectors)) as [l|e0] eqn:El;
    cbn [bind].
  2:{ intros H. injection H as <-. apply math_log2_int_fault in El as [-> _].
      left. reflexivity. }
  unfold float_truediv. destruct (PrimFloat.eqb l 0); cbn [bind].
  { intros H. injection H as <-. right. left. reflexivity. }
  destruct (math_log2 libm_log2 _) as [x|e0] eqn:Ex; cbn [bind].
  - apply py_round_fault.
  - intros H. injection H as <-. apply math_log2_fault in Ex as ->.
    left. reflexivity.
Qed.

Lemma log_n_of_zero_length (libm_log2 : float -> float) (rest : list vec) :
  log_n_of libm_log2 ([] :: rest) = Err math_domain_error.
Proof. reflexivity. Qed.

Lemma find_min_hamming_using_LSH_widths_fault (libm_log2 : float -> float)
  (vectors : list vec) (iterations : Z) (t : tape) (e : exn) :
  lsh_widths libm_log2 vectors = Err e ->
  find_min_hamming_using_LSH libm_log2 vectors iterations t = Err e.
Proof.
  intros H. unfold find_min_hamming_using_LSH, bindM, lift. rewrite H.
  reflexivity.
Qed.

(** With log2(2) = 1, the grouping width of a collection of two vectors is
    computed without any fault. *)
Lemma num_of_lsh_bits_of_two (libm_log2 : float -> float) (a b : vec) :
  libm_log2 2%float = 1%float ->
  num_of_lsh_bits_of libm_log2 [a; b] = Ok 1.
Proof.
  intros H. unfold num_of_lsh_bits_of, math_log2_int, float_truediv.
  cbn [len List.length Z.of_nat Z.leb Z.compare bind].
  change (float_of_int (Z.pos (Pos.of_succ_nat 1))) with 2%float.
  rewrite H. change (PrimFloat.eqb 1 0) with false. cbn [bind].
  change (PrimFloat.div 2 1) with 2%float.
  unfold math_log2. change (PrimFloat.is_nan 2) with false.
  change (PrimFloat.is_infinity 2) with false.
  change (PrimFloat.ltb 0 2) with true. cbn [bind].
  rewrite H. reflexivity.
Qed.

(** C4 (as amended). [find_min_hamming_using_LSH] validates nothing: on a
    degenerate input it fails inside the two width computations, before
    any draw, with the exception of the failing arithmetic operation.  An
    empty collection gives the math-domain [ValueError] of [log2(0)] and a
    single vector the [ZeroDivisionError] of [m / log2(m)], both inside
    [round(log2(m / log2(m)))].  For vectors of length zero the failing
    operation belongs to one of the two width formulas: whenever the
    grouping width [round(log2(m / log2(m)))] is computed, the fault is the
    math-domain [ValueError] of the filter width [round(log2(n))]; and the
    grouping width is computed, and is 1, for a collection of two vectors
    (with [log2(2) = 1]). *)
Theorem find_min_hamming_using_LSH_unguarded (libm_log2 : float -> float)
  (vectors : list vec) (iterations : Z) (t : tape) :
  PrimFloat.eqb (libm_log2 1%float) 0%float = true ->
  degenerate vectors ->
  exists e,
    lsh_widths libm_log2 vectors = Err e /\
    find_min_hamming_using_LSH libm_log2 vectors iterations t = Err e /\
    arithmetic_fault e /\
    (vectors = [] ->
       num_of_lsh_bits_of libm_log2 vectors = Err e /\ e = math_domain_error) /\
    (List.length vectors = 1%nat ->
       num_of_lsh_bits_of libm_log2 vectors = Err e /\
       e = ZeroDivisionError "float division by zero"%string) /\
    (forall k, num_of_lsh_bits_of libm_log2 vectors = Ok k ->
       log_n_of libm_log2 vectors = Err e /\ e = math_domain_error) /\
    (libm_log2 2%float = 1%float -> List.length vectors = 2%nat ->
       num_of_lsh_bits_of libm_log2 vectors = Ok 1 /\
       log_n_of libm_log2 vectors = Err e /\ e = math_domain_error).
Proof.
  intros Hone Hdeg.
  assert (Hsingle : forall v,
            num_of_lsh_bits_of libm_log2 [v]
            = Err (ZeroDivisionError "float division by zero"%string)).
  { intros v. unfold num_of_lsh_bits_of, math_log2_int, float_truediv.
    cbn [len List.length Z.of_nat Z.leb Z.compare bind].
    change (float_of_int (Z.pos (Pos.of_succ_nat 0))) with 1%float.
    rewrite Hone. reflexivity. }
  assert (Hwidths : exists e,
            lsh_widths libm_log2 vectors = Err e /\
            arithmetic_fault e /\
            (vectors = [] ->
               num_of_lsh_bits_of libm_log2 vectors = Err e /\
               e = math_domain_error) /\
            (List.length vectors = 1%nat ->
               num_of_lsh_bits_of libm_log2 vectors = Err e /\
               e = ZeroDivisionError "float division by zero"%string) /\
            (forall k, num_of_lsh_bits_of libm_log2 vectors = Ok k ->
               log_n_of libm_log2 vectors = Err e /\ e = math_domain_error)).
  { destruct Hdeg as [->|[Hlen|[rest ->]]].
    - exists math_domain_error.
      split; [reflexivity|]. split; [left; reflexivity|].
      split; [intros _; split; reflexivity|].
      split; [discriminate|]. discriminate.
    - destruct vectors as [|v [|w rest]]; try discriminate.
      exists (ZeroDivisionError "float division by zero"%string).
      unfold lsh_widths. rewrite Hsingle.
      split; [reflexivity|]. split; [right; left; reflexivity|].
      split; [discriminate|].
      split; [intros _; split; reflexivity|]. discriminate.
    - unfold lsh_widths.
      destruct (num_of_lsh_bits_of libm_log2 ([] :: rest)) as [k|e] eqn:Ek;
        cbn [bind].
      + exists math_domain_error. rewrite log_n_of_zero_length. cbn [bind].
        split; [reflexivity|]. split; [left; reflexivity|].
        split; [discriminate|]. split.
        * intros Hlen. destruct rest; [|discriminate].
          rewrite Hsingle in Ek. discriminate.
        * intros _ _. split; reflexivity.
      + exists e. pose proof (num_of_lsh_bits_of_fault _ _ _ Ek) as Hf.
        split; [reflexivity|]. split; [exact Hf|].
        split; [discriminate|]. split.
        * intros Hlen. destruct rest; [|discriminate].
          rewrite Hsingle in Ek. split; congruence.
        * discriminate. }
  destruct Hwidths as (e & Hw & Hf & Hempty & Hone' & Hzero). exists e.
  split; [exact Hw|].
  split; [apply find_min_hamming_using_LSH_widths_fault; exact Hw|].
  split; [exact Hf|]. split; [exact Hempty|]. split; [exact Hone'|].
  split; [exact Hzero|].
  intros Htwo Hlen.
  destruct vectors as [|a [|b [|c rest]]]; try discriminate.
  pose proof (num_of_lsh_bits_of_two libm_log2 a b Htwo) as Hk.
  split; [exact Hk|]. apply (Hzero 1 Hk).
Qed.

(** ** LSH Aggregator against Exact Search *)

(** C1. On a collection of at least two vectors of one length, whatever the
    round count and the random draws, the distance returned by the LSH
    Aggregator is at least the distance returned by Exact Search; and the
    LSH Aggregator does return when there is at least one round, the
    widths are computed and the draws answer the calls of the rounds. *)
Theorem find_min_hamming_using_LSH_upper_bound (libm_log2 : float -> float)
  (vectors : list vec) (n : nat) (iterations : Z) (t : tape) :
  (2 <= List.length vectors)%nat ->
  Forall (fun v => List.length v = n) vectors ->
  (forall approx t',
      find_min_hamming_using_LSH libm_log2 vectors iterations t
      = Ok (approx, t') ->
      exists exact,
        find_min_hamming_distance vectors = Ok exact /\
        fst exact <= fst approx) /\
  (forall num_of_lsh_bits log_n,
      1 <= iterations ->
      lsh_widths libm_log2 vectors = Ok (num_of_lsh_bits, log_n) ->
      admissible_tape (Z.of_nat n) num_of_lsh_bits log_n
        (Z.to_nat iterations) t ->
      exists approx t',
        find_min_hamming_using_LSH libm_log2 vectors iterations t
        = Ok (approx, t')).
Proof.
  intros Hlen Hall.
  assert (Hne : vectors <> [])
    by (destruct vectors; [simpl in Hlen; lia | congruence]).
  split.
  - intros approx t' Hrun.
    destruct (find_min_hamming_distance_lower_bound vectors n Hne Hall)
      as (exact & Hexact & Hle).
    exists exact. split; [exact Hexact|]. apply Hle.
    apply (find_min_hamming_using_LSH_sound libm_log2 vectors n iterations
             t t'); assumption.
  - intros num_of_lsh_bits log_n Hit Hwidths Hadm.
    destruct (find_min_hamming_using_LSH_defined libm_log2 vectors n
                iterations t num_of_lsh_bits log_n Hne Hall Hit Hwidths Hadm)
      as (approx & t' & Hrun & _).
    exists approx, t'. exact Hrun.
Qed.

Lemma find_min_hamming_using_LSH_upper_bound_witness :
  (2 <= List.length [[0; 0; 0; 0]; [0; 0; 0; 1]; [1; 1; 1; 1]])%nat /\
  Forall (fun v : vec => List.length v = 4%nat)
    [[0; 0; 0; 0]; [0; 0; 0; 1]; [1; 1; 1; 1]] /\
  exists approx t',
    find_min_hamming_using_LSH log2_ref
      [[0; 0; 0; 0]; [0; 0; 0; 1]; [1; 1; 1; 1]] 2
      (fun k => if Nat.even k then [0%nat] else [2%nat; 3%nat])
    = Ok (approx, t') /\
    exists exact,
      find_min_hamming_distance [[0; 0; 0; 0]; [0; 0; 0; 1]; [1; 1; 1; 1]]
      = Ok exact /\
      fst exact <= fst approx.
Proof.
  split; [simpl; lia|]. split; [repeat constructor|].
  destruct (find_min_hamming_using_LSH_upper_bound log2_ref
              [[0; 0; 0; 0]; [0; 0; 0; 1]; [1; 1; 1; 1]] 4 2
              (fun k => if Nat.even k then [0%nat] else [2%nat; 3%nat]))
    as [Hbound Hdefined]; [simpl; lia | repeat constructor |].
  destruct (Hdefined 1 2) as (approx & t' & Hrun).
  - lia.
  - vm_compute. reflexivity.
  - intros i Hi. destruct i as [|[|i]]; [| |simpl in Hi; lia].
    + split; (split; [reflexivity|]);
        (split; [repeat constructor; simpl; intuition discriminate|]);
        repeat constructor.
    + split; (split; [reflexivity|]);
        (split; [repeat constructor; simpl; intuition discriminate|]);
        repeat constructor.
  - exists approx, t'. split; [exact Hrun|]. apply (Hbound approx t'). exact Hrun.
Defined.

(** ** Where the claims as first stated fail *)

(** C4, counterexample. On two vectors of length zero the width
    computation [round(log2(m / log2(m)))] does not fail (it yields 1);
    the math-domain [ValueError] comes from [round(log2(n))]. *)
Lemma width_formula_vector_length_zero :
  num_of_lsh_bits_of log2_ref [[]; []] = Ok 1 /\
  log_n_of log2_ref [[]; []] = Err math_domain_error /\
  find_min_hamming_using_LSH log2_ref [[]; []] 1 (fun _ => [])
  = Err math_domain_error.
Proof. vm_compute. repeat split. Qed.

Lemma find_min_hamming_using_LSH_unguarded_witness :
  PrimFloat.eqb (log2_ref 1%float) 0%float = true /\
  degenerate [[]; []] /\
  exists e,
    lsh_widths log2_ref [[]; []] = Err e /\
    find_min_hamming_using_LSH log2_ref [[]; []] 3 (fun _ => []) = Err e /\
    arithmetic_fault e /\
    num_of_lsh_bits_of log2_ref [[]; []] = Ok 1 /\
    log_n_of log2_ref [[]; []] = Err e /\
    e = math_domain_error.
Proof.
  split; [vm_compute; reflexivity|].
  split; [right; right; exists [[]]; reflexivity|].
  destruct (find_min_hamming_using_LSH_unguarded log2_ref [[]; []] 3
              (fun _ => []))
    as (e & Hw & Hrun & Hf & _ & _ & _ & Htwo);
    [vm_compute; reflexivity | right; right; exists [[]]; reflexivity |].
  destruct Htwo as (Hk & Hn & He); [vm_compute; reflexivity | reflexivity |].
  exists e. repeat split; assumption.
Defined.

(** C3, counterexample. The minimum-reduction raises on an empty list,
    which is what the round-level reduction receives when the round count
    is zero; it also raises when an entry without a pair ties with an
    entry that has one. *)
Lemma py_min_raises :
  py_min [] = Err (ValueError "min() arg is an empty sequence"%string) /\
  find_min_hamming_using_LSH log2_ref
    [[0; 0; 0; 0]; [0; 0; 0; 1]; [1; 1; 1; 1]] 0 (fun _ => [])
  = Err (ValueError "min() arg is an empty sequence"%string) /\
  py_min [(1, None); (1, Some ([0], [1]))]
  = Err (TypeError
           "'<' not supported between instances of 'tuple' and 'NoneType'"%string).
Proof. vm_compute. repeat split. Qed.

(** ** Evaluation Harness *)





(** ** Binary64: how quotients, sums and products are rounded *)


(** *** The number of binary digits *)





Lemma Zdigits2_nonneg (m : Z) : 0 <= Zdigits2 m.
Proof. destruct m; simpl; lia. Qed.







(** *** Shifting a mantissa to the right *)









(** *** Rounding to nearest, ties to even *)







(** *** The quotient of two ints *)





(** *** The product with 100.0 *)



(** *** Signs and canonical form of the results *)







(** *** The conversion of an int *)






(** *** Signs through sum, quotient and product *)





(* ================================================================== *)
(** * Further properties of the code *)

(** ** Distance Metric: a bounded metric *)

Lemma hamming_triangle (a b c : vec) :
  List.length a = List.length b -> List.length b = List.length c ->
  hamming a c <= hamming a b + hamming b c.
Proof.
  revert b c. induction a as [|x a IH]; intros [|y b] [|z c] Hab Hbc;
    simpl in Hab, Hbc; try (exfalso; discriminate); cbn [hamming];
    try lia.
  injection Hab as Hab. injection Hbc as Hbc. specialize (IH b c Hab Hbc).
  destruct (Z.eqb_spec x z), (Z.eqb_spec x y), (Z.eqb_spec y z);
    cbn [negb Z.b2z]; try lia; congruence.
Qed.

(** X1. Whenever the Distance Metric returns, its value lies between 0 and
    the common length of the two vectors, so it never reaches the sentinel
    [n + 1] used by the searches. *)
Theorem calculate_hamming_distance_range (a b : vec) (d : Z) :
  calculate_hamming_distance a b = Ok d ->
  0 <= d <= len a /\ len a = len b.
Proof.
  intros H. destruct (Nat.eq_dec (List.length a) (List.length b)) as [E|E].
  - rewrite (calculate_hamming_distance_eq a b E) in H. injection H as <-.
    split; [apply hamming_bounds | apply len_eq_iff; exact E].
  - rewrite (calculate_hamming_distance_neq a b E) in H. discriminate.
Qed.

Lemma calculate_hamming_distance_range_witness :
  calculate_hamming_distance [1; 0; 1; 1] [0; 0; 1; 0] = Ok 2 /\
  (0 <= 2 <= len [1; 0; 1; 1] /\ len [1; 0; 1; 1] = len [0; 0; 1; 0]).
Proof.
  split; [reflexivity|].
  apply (calculate_hamming_distance_range [1; 0; 1; 1] [0; 0; 1; 0] 2).
  reflexivity.
Defined.

(** X2. The Distance Metric satisfies the triangle inequality: when the
    distances from [a] to [b] and from [b] to [c] are returned, so is the
    distance from [a] to [c], and it is at most their sum. *)
Theorem calculate_hamming_distance_triangle (a b c : vec) (d1 d2 : Z) :
  calculate_hamming_distance a b = Ok d1 ->
  calculate_hamming_distance b c = Ok d2 ->
  exists d3, calculate_hamming_distance a c = Ok d3 /\ d3 <= d1 + d2.
Proof.
  intros H1 H2.
  destruct (Nat.eq_dec (List.length a) (List.length b)) as [Eab|Eab];
    [|rewrite (calculate_hamming_distance_neq a b Eab) in H1; discriminate].
  destruct (Nat.eq_dec (List.length b) (List.length c)) as [Ebc|Ebc];
    [|rewrite (calculate_hamming_distance_neq b c Ebc) in H2; discriminate].
  rewrite (calculate_hamming_distance_eq a b Eab) in H1. injection H1 as <-.
  rewrite (calculate_hamming_distance_eq b c Ebc) in H2. injection H2 as <-.
  exists (hamming a c). split.
  - apply calculate_hamming_distance_eq. congruence.
  - apply hamming_triangle; assumption.
Qed.

Lemma calculate_hamming_distance_triangle_witness :
  calculate_hamming_distance [1; 0; 1] [0; 0; 1] = Ok 1 /\
  calculate_hamming_distance [0; 0; 1] [0; 1; 0] = Ok 2 /\
  exists d3, calculate_hamming_distance [1; 0; 1] [0; 1; 0] = Ok d3 /\
             d3 <= 1 + 2.
Proof.
  split; [reflexivity|]. split; [reflexivity|].
  apply (calculate_hamming_distance_triangle [1; 0; 1] [0; 0; 1] [0; 1; 0]);
    reflexivity.
Defined.

Lemma calculate_hamming_distance_Ok_hamming (a b : vec) (d : Z) :
  calculate_hamming_distance a b = Ok d -> d = hamming a b.
Proof.
  intros H. destruct (Nat.eq_dec (List.length a) (List.length b)) as [E|E].
  - rewrite (calculate_hamming_distance_eq a b E) in H. congruence.
  - rewrite (calculate_hamming_distance_neq a b E) in H. discriminate.
Qed.

(** ** Loops: what a run that returns, or raises, says about the body *)

Lemma for_each_ext {A S : Type} (xs : list A) (f g : A -> S -> result S)
  (st : S) :
  (forall x s, In x xs -> f x s = g x s) ->
  for_each xs f st = for_each xs g st.
Proof.
  revert st. induction xs as [|x xs IH]; intros st H; simpl; [reflexivity|].
  rewrite H by (left; reflexivity).
  destruct (g x st); simpl; [|reflexivity].
  apply IH. intros y s Hy. apply H. right. exact Hy.
Qed.

Lemma for_each_Ok_all {A S : Type} (xs : list A) (body : A -> S -> result S)
  (st st' : S) :
  for_each xs body st = Ok st' ->
  forall x, In x xs -> exists s s', body x s = Ok s'.
Proof.
  revert st. induction xs as [|x xs IH]; intros st Hrun y Hy; [destruct Hy|].
  simpl in Hrun. apply bind_Ok_inv in Hrun as (s1 & Hb & Hrun).
  destruct Hy as [<-|Hy]; [eauto | eapply IH; eauto].
Qed.

Lemma for_each_Err_inv {A S : Type} (xs : list A) (body : A -> S -> result S)
  (st : S) (e : exn) :
  for_each xs body st = Err e ->
  exists x s, In x xs /\ body x s = Err e.
Proof.
  revert st. induction xs as [|x xs IH]; intros st Hrun; [discriminate|].
  simpl in Hrun. destruct (body x st) as [s1|e1] eqn:Hb; cbn [bind] in Hrun.
  - destruct (IH s1 Hrun) as (y & s & Hy & He). exists y, s.
    split; [right; exact Hy | exact He].
  - injection Hrun as <-. exists x, st. split; [left; reflexivity | exact Hb].
Qed.

Lemma scan_lower {C P : Type} (d : C -> Z) (payload : C -> P)
  (cands : list C) (init : Z) :
  let r := fold_left (scan_step d payload) cands (init, None) in
  fst r <= init /\ forall c, In c cands -> fst r <= d c.
Proof.
  pose proof (scan_spec d payload cands init) as H. cbv zeta in *.
  destruct (snd _) as [p|].
  - destruct H as (l1 & c0 & l2 & -> & _ & -> & Hlt & H1 & H2).
    split; [lia|]. intros c Hc. rewrite Forall_forall in H1, H2.
    apply in_app_or in Hc as [Hc|[<-|Hc]];
      [apply H1 in Hc; lia | lia | apply H2; exact Hc].
  - destruct H as [-> Hge]. split; [lia|]. apply Forall_forall. exact Hge.
Qed.

Lemma scan_attained {C P : Type} (d : C -> Z) (payload : C -> P)
  (cands : list C) (init : Z) :
  let r := fold_left (scan_step d payload) cands (init, None) in
  fst r = init \/ exists c, In c cands /\ fst r = d c.
Proof.
  pose proof (scan_spec d payload cands init) as H. cbv zeta in *.
  destruct (snd _) as [p|].
  - destruct H as (l1 & c0 & l2 & -> & _ & -> & _). right. exists c0.
    split; [apply in_or_app; right; left; reflexivity | reflexivity].
  - left. apply H.
Qed.

(** ** Exact Search: when it returns and when it raises *)

Lemma find_min_hamming_distance_flat (v0 : vec) (rest : list vec) :
  find_min_hamming_distance (v0 :: rest)
  = for_each (index_pairs (List.length (v0 :: rest)))
      (fun p st =>
         vi <- py_getitem (v0 :: rest) (fst p) ;;
         vj <- py_getitem (v0 :: rest) (snd p) ;;
         dist <- calculate_hamming_distance vi vj ;;
         Ok (if dist <? fst st then (dist, Some (vi, vj)) else st))
      (len v0 + 1, None).
Proof.
  unfold find_min_hamming_distance. cbn [py_getitem nth_error bind].
  rewrite for_each_nested. reflexivity.
Qed.

Lemma pairwise_lengths (vectors : list vec) :
  (forall i j, (i < j < List.length vectors)%nat ->
     List.length (nth i vectors []) = List.length (nth j vectors [])) ->
  forall u v, In u vectors -> In v vectors -> List.length u = List.length v.
Proof.
  intros H u v Hu Hv.
  destruct (In_nth vectors u [] Hu) as (i & Hi & <-).
  destruct (In_nth vectors v [] Hv) as (j & Hj & <-).
  destruct (Nat.lt_trichotomy i j) as [Hlt|[->|Hgt]];
    [apply H; lia | reflexivity | symmetry; apply H; lia].
Qed.

(** X3. Exact Search returns exactly on a non-empty collection whose
    vectors all have one length.  On an empty collection it raises
    [IndexError]; when two vectors differ in length it raises the
    [ValueError] of the Distance Metric: a length mismatch is never
    silent. *)
Theorem find_min_hamming_distance_outcome (vectors : list vec) :
  match find_min_hamming_distance vectors with
  | Ok _ =>
      vectors <> [] /\
      forall u v, In u vectors -> In v vectors ->
                  List.length u = List.length v
  | Err e =>
      (vectors = [] /\ e = IndexError "list index out of range"%string) \/
      (e = ValueError "Input vectors must have the same length."%string /\
       exists u v, In u vectors /\ In v vectors /\
                   List.length u <> List.length v)
  end.
Proof.
  destruct vectors as [|v0 rest]; [left; split; reflexivity|].
  rewrite find_min_hamming_distance_flat.
  set (vectors := v0 :: rest) in *.
  destruct (for_each _ _ _) as [r|e] eqn:Hrun.
  - split; [discriminate|]. apply pairwise_lengths. intros i j Hij.
    destruct (for_each_Ok_all _ _ _ _ Hrun (i, j)) as (s & s' & Hb);
      [apply in_index_pairs; exact Hij|].
    cbn [fst snd] in Hb. rewrite !py_getitem_nth in Hb by lia.
    cbn [bind] in Hb.
    destruct (Nat.eq_dec (List.length (nth i vectors []))
                (List.length (nth j vectors []))) as [E|E]; [exact E|].
    rewrite (calculate_hamming_distance_neq _ _ E) in Hb. discriminate.
  - right. apply for_each_Err_inv in Hrun as ([i j] & s & Hin & Hb).
    apply in_index_pairs in Hin. cbn [fst snd] in Hb.
    rewrite !py_getitem_nth in Hb by lia. cbn [bind] in Hb.
    destruct (Nat.eq_dec (List.length (nth i vectors []))
                (List.length (nth j vectors []))) as [E|E].
    + rewrite (calculate_hamming_distance_eq _ _ E) in Hb. discriminate.
    + rewrite (calculate_hamming_distance_neq _ _ E) in Hb.
      injection Hb as <-. split; [reflexivity|].
      exists (nth i vectors []), (nth j vectors []).
      split; [apply nth_In; lia|]. split; [apply nth_In; lia | exact E].
Qed.

(** ** Group-Filtered Search and its filter *)

(** X5. With an empty filter sample Group-Filtered Search is Exact Search:
    on every input the two functions return the same result or raise the
    same exception. *)
Theorem find_min_hamming_distance_in_group_no_filter (vectors : list vec) :
  find_min_hamming_distance_in_group vectors []
  = find_min_hamming_distance vectors.
Proof.
  unfold find_min_hamming_distance_in_group, find_min_hamming_distance.
  destruct (py_getitem vectors 0) as [v0|e]; cbn [bind]; [|reflexivity].
  apply for_each_ext. intros i s _. apply for_each_ext. intros j s' _.
  destruct (py_getitem vectors i) as [vi|e]; cbn [bind]; [|reflexivity].
  destruct (py_getitem vectors j) as [vj|e]; cbn [bind]; reflexivity.
Qed.

Lemma agree_onb_incl (indices1 indices2 : list nat) (a b : vec) :
  incl indices1 indices2 ->
  agree_onb indices2 a b = true -> agree_onb indices1 a b = true.
Proof.
  unfold agree_onb. rewrite !forallb_forall. intros Hincl H idx Hin.
  apply H. apply Hincl. exact Hin.
Qed.

(** X6. Widening the filter never makes Group-Filtered Search report a
    smaller distance: on a non-empty group of vectors of one length, if
    every position of one filter sample belongs to a second sample, the
    distance found with the second is at least the one found with the
    first. *)
Theorem find_min_hamming_distance_in_group_filter_monotone
  (vectors : list vec) (indices1 indices2 : list nat) (n : nat) :
  vectors <> [] ->
  Forall (fun v => List.length v = n) vectors ->
  Forall (fun idx => (idx < n)%nat) indices1 ->
  Forall (fun idx => (idx < n)%nat) indices2 ->
  incl indices1 indices2 ->
  exists r1 r2,
    find_min_hamming_distance_in_group vectors indices1 = Ok r1 /\
    find_min_hamming_distance_in_group vectors indices2 = Ok r2 /\
    fst r1 <= fst r2.
Proof.
  intros Hne Hall H1 H2 Hincl.
  rewrite !find_min_hamming_distance_in_group_erase.
  rewrite (find_min_hamming_distance_in_group_scan vectors indices1 n Hne Hall H1).
  rewrite (find_min_hamming_distance_in_group_scan vectors indices2 n Hne Hall H2).
  cbn [bind fst]. eexists. eexists. split; [reflexivity|].
  split; [reflexivity|].
  pose proof (scan_lower (pair_distance vectors) (pair_at vectors)
                (filter (qualifies vectors indices1)
                   (index_pairs (List.length vectors)))
                (Z.of_nat n + 1)) as [Hinit Hle].
  destruct (scan_attained (pair_distance vectors) (pair_at vectors)
              (filter (qualifies vectors indices2)
                 (index_pairs (List.length vectors)))
              (Z.of_nat n + 1)) as [->|(c & Hc & ->)]; [exact Hinit|].
  apply Hle. apply filter_In in Hc as [Hc Hq]. apply filter_In.
  split; [exact Hc|]. unfold qualifies in *.
  apply (agree_onb_incl indices1 indices2); assumption.
Qed.

Lemma find_min_hamming_distance_in_group_filter_monotone_witness :
  [[0; 0; 1]; [1; 0; 0]; [0; 1; 1]] <> [] /\
  Forall (fun v : vec => List.length v = 3%nat)
    [[0; 0; 1]; [1; 0; 0]; [0; 1; 1]] /\
  Forall (fun idx => (idx < 3)%nat) [2%nat] /\
  Forall (fun idx => (idx < 3)%nat) [0%nat; 2%nat] /\
  incl [2%nat] [0%nat; 2%nat] /\
  exists r1 r2,
    find_min_hamming_distance_in_group
      [[0; 0; 1]; [1; 0; 0]; [0; 1; 1]] [2%nat] = Ok r1 /\
    find_min_hamming_distance_in_group
      [[0; 0; 1]; [1; 0; 0]; [0; 1; 1]] [0%nat; 2%nat] = Ok r2 /\
    fst r1 <= fst r2.
Proof.
  assert (Hincl : incl [2%nat] [0%nat; 2%nat])
    by (intros x [<-|[]]; right; left; reflexivity).
  split; [discriminate|]. split; [repeat constructor|].
  split; [repeat constructor|]. split; [repeat constructor|].
  split; [exact Hincl|].
  apply (find_min_hamming_distance_in_group_filter_monotone
           [[0; 0; 1]; [1; 0; 0]; [0; 1; 1]] [2%nat] [0%nat; 2%nat] 3);
    [discriminate | repeat constructor | repeat constructor
    | repeat constructor | exact Hincl].
Defined.

(** ** Exact Search does not depend on the order of the collection *)

Lemma find_min_hamming_distance_Ok_inv (vectors : list vec)
  (r : search_result) :
  find_min_hamming_distance vectors = Ok r ->
  vectors <> [] /\
  Forall (fun v => List.length v = List.length (nth 0 vectors [])) vectors.
Proof.
  destruct vectors as [|v0 rest]; [discriminate|]. intros Hrun.
  split; [discriminate|]. rewrite find_min_hamming_distance_flat in Hrun.
  set (vectors := v0 :: rest) in *.
  apply Forall_forall. intros v Hv.
  apply (pairwise_lengths vectors); [|exact Hv | left; reflexivity].
  intros i j Hij.
  destruct (for_each_Ok_all _ _ _ _ Hrun (i, j)) as (s & s' & Hb);
    [apply in_index_pairs; exact Hij|].
  cbn [fst snd] in Hb. rewrite !py_getitem_nth in Hb by lia.
  cbn [bind] in Hb.
  destruct (Nat.eq_dec (List.length (nth i vectors []))
              (List.length (nth j vectors []))) as [E|E]; [exact E|].
  rewrite (calculate_hamming_distance_neq _ _ E) in Hb. discriminate.
Qed.

(** Two distinct positions of a list are two distinct positions of any
    permutation of it. *)
Lemma Permutation_two_positions (l l' : list vec) (i j : nat) :
  Permutation l l' -> i <> j ->
  (i < List.length l)%nat -> (j < List.length l)%nat ->
  exists i' j',
    i' <> j' /\ (i' < List.length l')%nat /\ (j' < List.length l')%nat /\
    nth i' l' [] = nth i l [] /\ nth j' l' [] = nth j l [].
Proof.
  intros Hperm Hneq Hi Hj. symmetry in Hperm.
  apply Permutation_nth_error in Hperm as (_ & f & Hinj & Hf).
  assert (Hpos : forall k, (k < List.length l)%nat ->
            (f k < List.length l')%nat /\ nth (f k) l' [] = nth k l []).
  { intros k Hk. pose proof (nth_error_nth' l [] Hk) as E.
    rewrite Hf in E. apply nth_error_nth_eq in E. exact E. }
  exists (f i), (f j). destruct (Hpos i Hi) as [Hi' Ei].
  destruct (Hpos j Hj) as [Hj' Ej].
  split; [intros E; apply Hneq; apply Hinj; exact E|]. tauto.
Qed.

Lemma pair_distance_sym (vectors : list vec) (i j : nat) :
  pair_distance vectors (i, j) = pair_distance vectors (j, i).
Proof. unfold pair_distance. cbn [fst snd]. apply hamming_sym. Qed.

Lemma scan_distance_permutation (vs vs' : list vec) (n : Z) :
  Permutation vs vs' ->
  fst (fold_left (scan_step (pair_distance vs') (pair_at vs'))
         (index_pairs (List.length vs')) (n, None))
  <= fst (fold_left (scan_step (pair_distance vs) (pair_at vs))
            (index_pairs (List.length vs)) (n, None)).
Proof.
  intros Hperm.
  pose proof (scan_lower (pair_distance vs') (pair_at vs')
                (index_pairs (List.length vs')) n) as [Hinit Hle].
  destruct (scan_attained (pair_distance vs) (pair_at vs)
              (index_pairs (List.length vs)) n) as [->|([i j] & Hc & ->)];
    [exact Hinit|].
  apply in_index_pairs in Hc.
  destruct (Permutation_two_positions vs vs' i j Hperm)
    as (i' & j' & Hneq & Hi' & Hj' & Ei & Ej); try lia.
  assert (E : pair_distance vs (i, j) = pair_distance vs' (i', j'))
    by (unfold pair_distance; cbn [fst snd]; rewrite Ei, Ej; reflexivity).
  rewrite E. destruct (Nat.lt_ge_cases i' j') as [Hlt|Hge].
  - apply Hle. apply in_index_pairs. lia.
  - rewrite pair_distance_sym. apply Hle. apply in_index_pairs. lia.
Qed.

(** X4. The distance reported by Exact Search does not depend on the
    order of the collection: if it returns on a collection, it returns the
    same distance on every permutation of it (the reported pair may
    differ). *)
Theorem find_min_hamming_distance_permutation (vectors vectors' : list vec)
  (r : search_result) :
  Permutation vectors vectors' ->
  find_min_hamming_distance vectors = Ok r ->
  exists r',
    find_min_hamming_distance vectors' = Ok r' /\ fst r' = fst r.
Proof.
  intros Hperm Hrun.
  pose proof (find_min_hamming_distance_Ok_inv _ _ Hrun) as [Hne Hall].
  set (n := List.length (nth 0 vectors [])) in *.
  assert (Hne' : vectors' <> [])
    by (intros E; subst vectors'; apply Permutation_sym, Permutation_nil in Hperm;
        contradiction).
  assert (Hall' : Forall (fun v => List.length v = n) vectors')
    by (eapply Permutation_Forall; eauto).
  rewrite (find_min_hamming_distance_scan vectors n Hne Hall) in Hrun.
  injection Hrun as <-.
  rewrite (find_min_hamming_distance_scan vectors' n Hne' Hall').
  eexists. split; [reflexivity|].
  apply Z.le_antisymm.
  - apply scan_distance_permutation. exact Hperm.
  - apply scan_distance_permutation. symmetry. exact Hperm.
Qed.

Lemma find_min_hamming_distance_permutation_witness :
  Permutation [[0; 0; 0; 0]; [0; 0; 0; 1]; [1; 1; 1; 1]]
    [[1; 1; 1; 1]; [0; 0; 0; 1]; [0; 0; 0; 0]] /\
  find_min_hamming_distance [[0; 0; 0; 0]; [0; 0; 0; 1]; [1; 1; 1; 1]]
  = Ok (1, Some ([0; 0; 0; 0], [0; 0; 0; 1])) /\
  exists r',
    find_min_hamming_distance [[1; 1; 1; 1]; [0; 0; 0; 1]; [0; 0; 0; 0]]
    = Ok r' /\
    fst r' = fst (1, Some ([0; 0; 0; 0], [0; 0; 0; 1])).
Proof.
  assert (Hperm : Permutation [[0; 0; 0; 0]; [0; 0; 0; 1]; [1; 1; 1; 1]]
                    [[1; 1; 1; 1]; [0; 0; 0; 1]; [0; 0; 0; 0]]).
  { apply (Permutation_rev [[0; 0; 0; 0]; [0; 0; 0; 1]; [1; 1; 1; 1]]). }
  split; [exact Hperm|]. split; [reflexivity|].
  apply (find_min_hamming_distance_permutation
           [[0; 0; 0; 0]; [0; 0; 0; 1]; [1; 1; 1; 1]]
           [[1; 1; 1; 1]; [0; 0; 0; 1]; [0; 0; 0; 0]]);
    [exact Hperm | reflexivity].
Defined.

(** ** The LSH search only reports what the collection contains *)

Lemma find_min_hamming_distance_in_group_genuine (group : list vec)
  (indices : list nat) (r : search_result) :
  find_min_hamming_distance_in_group group indices = Ok r ->
  genuine group r.
Proof.
  unfold find_min_hamming_distance_in_group.
  destruct group as [|v0 rest]; [discriminate|].
  cbn [py_getitem nth_error bind].
  assert (Hv0 : In v0 (v0 :: rest)) by (left; reflexivity).
  remember (v0 :: rest) as group eqn:Egroup. clear Egroup.
  rewrite for_each_nested. fold (index_pairs (List.length group)).
  intros Hrun.
  apply (for_each_invariant (fun _ st => genuine group st)) in Hrun;
    [exact Hrun | exists v0; split; [exact Hv0 | reflexivity] |].
  intros pre [i j] post s s' Hsplit Hs Hbody.
  assert (Hij : (i < j < List.length group)%nat).
  { apply in_index_pairs. rewrite Hsplit. apply in_or_app. right. left.
    reflexivity. }
  cbn [fst snd] in Hbody. rewrite !py_getitem_nth in Hbody by lia.
  cbn [bind] in Hbody.
  destruct (all_agree _ _ indices) as [[|]|e]; cbn [bind] in Hbody;
    [| congruence | discriminate].
  destruct (calculate_hamming_distance _ _) as [dist|e] eqn:Hd;
    cbn [bind] in Hbody; [|discriminate].
  injection Hbody as <-. destruct (dist <? fst s); [|exact Hs].
  exists i, j. cbn [fst snd].
  split; [lia|]. split; [apply nth_error_nth'; lia|].
  split; [apply nth_error_nth'; lia | exact Hd].
Qed.

Lemma genuine_filter (f : vec -> bool) (vectors : list vec)
  (r : search_result) :
  genuine (filter f vectors) r -> genuine vectors r.
Proof.
  unfold genuine. destruct (snd r) as [[a b]|].
  - intros (i & j & Hij & Ha & Hb & Hd).
    apply nth_error_nth_eq in Ha as [Hi <-], Hb as [Hj <-].
    destruct (filter_pair_positions f vectors [] i j)
      as (i' & j' & H' & E1 & E2); [lia|].
    exists i', j'. split; [lia|]. rewrite E1, E2 in *.
    split; [apply nth_error_nth'; lia|].
    split; [apply nth_error_nth'; lia | exact Hd].
  - intros (v & Hv & Hr). exists v. apply filter_In in Hv as [Hv _].
    split; assumption.
Qed.

Lemma lsh_round_genuine (vectors : list vec) (num_of_lsh_bits log_n : Z)
  (results results' : list search_result) (t t' : tape) :
  Forall (genuine vectors) results ->
  lsh_round vectors num_of_lsh_bits log_n results t = Ok (results', t') ->
  Forall (genuine vectors) results'.
Proof.
  intros Hres Hrun. unfold lsh_round in Hrun.
  apply bindM_Ok_inv in Hrun as (groups & t1 & Hgroups & Hrun).
  apply bindM_Ok_inv in Hrun as (v0 & t2 & _ & Hrun).
  apply bindM_Ok_inv in Hrun as (r & t3 & Hr & Hrun).
  unfold ret in Hrun. injection Hrun as <- _.
  apply Forall_app. split; [exact Hres|]. constructor; [|constructor].
  apply find_min_hamming_distance_across_groups_sound in Hr
    as (g & sample_bits & Hg & Hr).
  destruct (classify_vectors_by_random_bits_sound _ _ _ _ _ Hgroups g Hg)
    as (_ & f & ->).
  apply (genuine_filter f).
  apply (find_min_hamming_distance_in_group_genuine _ sample_bits). exact Hr.
Qed.

Lemma find_min_hamming_using_LSH_result_genuine (libm_log2 : float -> float)
  (vectors : list vec) (iterations : Z) (t t' : tape) (r : search_result) :
  find_min_hamming_using_LSH libm_log2 vectors iterations t = Ok (r, t') ->
  genuine vectors r.
Proof.
  intros Hrun. unfold find_min_hamming_using_LSH in Hrun.
  apply bindM_Ok_inv in Hrun as ([num_of_lsh_bits log_n] & t1 & _ & Hrun).
  apply bindM_Ok_inv in Hrun as (results & t2 & Hloop & Hrun).
  apply lift_Ok_inv in Hrun as [Hmin _].
  apply py_min_sound in Hmin as [Hin _].
  apply (repeat_M_invariant (Forall (genuine vectors))) in Hloop.
  - rewrite Forall_forall in Hloop. apply Hloop. exact Hin.
  - constructor.
  - intros s s' ta tb Hs Hbody.
    apply (lsh_round_genuine vectors _ _ s s' ta tb Hs Hbody).
Qed.

(** X8. Whatever the widths, the round count and the draws, and whether or
    not the vectors share a length, a result returned by the LSH Aggregator
    is genuine: a reported pair consists of two vectors at two positions
    [i < j] of the collection and the reported distance is their Hamming
    distance; with no pair, the reported distance is the length of a
    vector of the collection plus one. *)
Theorem find_min_hamming_using_LSH_genuine (libm_log2 : float -> float)
  (vectors : list vec) (iterations : Z) (t t' : tape) (r : search_result) :
  find_min_hamming_using_LSH libm_log2 vectors iterations t = Ok (r, t') ->
  match snd r with
  | Some (a, b) =>
      exists i j,
        (i < j)%nat /\ nth_error vectors i = Some a /\
        nth_error vectors j = Some b /\
        calculate_hamming_distance a b = Ok (fst r)
  | None => exists v, In v vectors /\ fst r = len v + 1
  end.
Proof.
  intros Hrun.
  apply find_min_hamming_using_LSH_result_genuine in Hrun.
  unfold genuine in Hrun. destruct (snd r) as [[a b]|]; exact Hrun.
Qed.

Lemma find_min_hamming_using_LSH_genuine_witness :
  exists t',
    find_min_hamming_using_LSH log2_ref
      [[0; 0; 0; 0]; [0; 0; 0; 1]; [1; 1; 1; 1]] 2
      (fun k => if Nat.even k then [0%nat] else [1%nat; 2%nat])
    = Ok ((1, Some ([0; 0; 0; 0], [0; 0; 0; 1])), t') /\
    exists i j,
      (i < j)%nat /\
      nth_error [[0; 0; 0; 0]; [0; 0; 0; 1]; [1; 1; 1; 1]] i
      = Some [0; 0; 0; 0] /\
      nth_error [[0; 0; 0; 0]; [0; 0; 0; 1]; [1; 1; 1; 1]] j
      = Some [0; 0; 0; 1] /\
      calculate_hamming_distance [0; 0; 0; 0] [0; 0; 0; 1] = Ok 1.
Proof.
  assert (Hrun : { t' | find_min_hamming_using_LSH log2_ref
      [[0; 0; 0; 0]; [0; 0; 0; 1]; [1; 1; 1; 1]] 2
      (fun k => if Nat.even k then [0%nat] else [1%nat; 2%nat])
      = Ok ((1, Some ([0; 0; 0; 0], [0; 0; 0; 1])), t') })
    by (eexists; vm_compute; reflexivity).
  destruct Hrun as [t' Hrun]. exists t'. split; [exact Hrun|].
  apply (find_min_hamming_using_LSH_genuine log2_ref _ 2 _ t' _ Hrun).
Defined.

(** ** More rounds never give a larger distance *)

Lemma repeat_M_add {S : Type} (n m : nat) (body : S -> M S) (st : S)
  (t : tape) :
  repeat_M (n + m) body st t
  = bindM (repeat_M n body st) (repeat_M m body) t.
Proof.
  revert st t. induction n as [|n IH]; intros st t.
  - unfold bindM. reflexivity.
  - cbn [Nat.add repeat_M]. unfold bindM in *.
    destruct (body st t) as [[s1 t1]|e]; [apply IH | reflexivity].
Qed.

Lemma lsh_rounds_extend (vectors : list vec) (num_of_lsh_bits log_n : Z)
  (rounds : nat) (results results' : list search_result) (t t' : tape) :
  repeat_M rounds (lsh_round vectors num_of_lsh_bits log_n) results t
  = Ok (results', t') ->
  exists extra, results' = results ++ extra.
Proof.
  revert results t. induction rounds as [|rounds IH]; intros results t Hrun;
    simpl in Hrun.
  - unfold ret in Hrun. injection Hrun as <- _. exists []. 
    rewrite app_nil_r. reflexivity.
  - apply bindM_Ok_inv in Hrun as (rs1 & t1 & Hround & Hrun).
    apply IH in Hrun as [extra ->].
    unfold lsh_round in Hround.
    apply bindM_Ok_inv in Hround as (groups & ta & _ & Hround).
    apply bindM_Ok_inv in Hround as (v0 & tb & _ & Hround).
    apply bindM_Ok_inv in Hround as (r & tc & _ & Hround).
    unfold ret in Hround. injection Hround as <- _.
    exists (r :: extra). rewrite <- app_assoc. reflexivity.
Qed.

(** X9. Running more rounds on the same draws never yields a larger
    distance: if the LSH Aggregator returns with [iterations] rounds and
    with [iterations'] rounds, [iterations <= iterations'], from the same
    state of the random source, the second distance is at most the
    first. *)
Theorem find_min_hamming_using_LSH_more_rounds (libm_log2 : float -> float)
  (vectors : list vec) (iterations iterations' : Z) (t t1 t2 : tape)
  (r r' : search_result) :
  iterations <= iterations' ->
  find_min_hamming_using_LSH libm_log2 vectors iterations t = Ok (r, t1) ->
  find_min_hamming_using_LSH libm_log2 vectors iterations' t = Ok (r', t2) ->
  fst r' <= fst r.
Proof.
  intros Hle Hrun Hrun'. unfold find_min_hamming_using_LSH in Hrun, Hrun'.
  apply bindM_Ok_inv in Hrun as ([k1 k2] & ta & Hw & Hrun).
  apply bindM_Ok_inv in Hrun' as ([k1' k2'] & ta' & Hw' & Hrun').
  apply lift_Ok_inv in Hw as [Hw ->]. apply lift_Ok_inv in Hw' as [Hw' ->].
  rewrite Hw in Hw'. injection Hw' as <- <-.
  apply bindM_Ok_inv in Hrun as (results & tb & Hloop & Hmin).
  apply bindM_Ok_inv in Hrun' as (results' & tb' & Hloop' & Hmin').
  apply lift_Ok_inv in Hmin as [Hmin _].
  apply lift_Ok_inv in Hmin' as [Hmin' _].
  replace (Z.to_nat iterations')
    with (Z.to_nat iterations + (Z.to_nat iterations' - Z.to_nat iterations))%nat
    in Hloop' by lia.
  rewrite repeat_M_add in Hloop'. unfold bindM in Hloop'.
  rewrite Hloop in Hloop'. apply lsh_rounds_extend in Hloop' as [extra ->].
  apply py_min_sound in Hmin as [Hin _].
  apply py_min_sound in Hmin' as [_ Hall].
  apply Hall. apply in_or_app. left. exact Hin.
Qed.

Lemma find_min_hamming_using_LSH_more_rounds_witness :
  exists r r' t1 t2,
    1 <= 2 /\
    find_min_hamming_using_LSH log2_ref
      [[0; 0; 0; 0]; [0; 0; 0; 1]; [1; 1; 1; 1]] 1
      (fun k => nth k [[3]; [0; 1]; [0]; [2; 3]]%nat []) = Ok (r, t1) /\
    find_min_hamming_using_LSH log2_ref
      [[0; 0; 0; 0]; [0; 0; 0; 1]; [1; 1; 1; 1]] 2
      (fun k => nth k [[3]; [0; 1]; [0]; [2; 3]]%nat []) = Ok (r', t2) /\
    fst r' <= fst r.
Proof.
  assert (H1 : { p | find_min_hamming_using_LSH log2_ref
      [[0; 0; 0; 0]; [0; 0; 0; 1]; [1; 1; 1; 1]] 1
      (fun k => nth k [[3]; [0; 1]; [0]; [2; 3]]%nat []) = Ok p })
    by (eexists; vm_compute; reflexivity).
  assert (H2 : { p | find_min_hamming_using_LSH log2_ref
      [[0; 0; 0; 0]; [0; 0; 0; 1]; [1; 1; 1; 1]] 2
      (fun k => nth k [[3]; [0; 1]; [0]; [2; 3]]%nat []) = Ok p })
    by (eexists; vm_compute; reflexivity).
  destruct H1 as [[r t1] H1]. destruct H2 as [[r' t2] H2].
  assert (Hle : 1 <= 2) by lia.
  exists r, r', t1, t2. split; [exact Hle|]. split; [exact H1|].
  split; [exact H2|].
  apply (find_min_hamming_using_LSH_more_rounds log2_ref _ 1 2 _ t1 t2 r r'
           Hle H1 H2).
Defined.

(** ** When the LSH search finds the exact minimum *)

Lemma filter_position_forward {A : Type} (f : A -> bool) (l : list A) (d : A)
  (k : nat) :
  (k < List.length l)%nat -> f (nth k l d) = true ->
  exists k', (k' < List.length (filter f l))%nat /\
             nth k' (filter f l) d = nth k l d.
Proof.
  intros Hk Hf.
  assert (Hin : In (nth k l d) (filter f l))
    by (apply filter_In; split; [apply nth_In; exact Hk | exact Hf]).
  destruct (In_nth _ _ d Hin) as (k' & Hk' & E). exists k'. split; assumption.
Qed.

Lemma filter_pair_positions_forward {A : Type} (f : A -> bool) (l : list A)
  (d : A) (i j : nat) :
  (i < j < List.length l)%nat ->
  f (nth i l d) = true -> f (nth j l d) = true ->
  exists i' j',
    (i' < j' < List.length (filter f l))%nat /\
    nth i' (filter f l) d = nth i l d /\ nth j' (filter f l) d = nth j l d.
Proof.
  revert i j. induction l as [|x l IH]; intros i j Hij Hi Hj;
    simpl in Hij; [lia|].
  destruct i as [|i], j as [|j]; try lia; simpl in Hi, Hj.
  - simpl. rewrite Hi.
    destruct (filter_position_forward f l d j) as (j' & Hj' & E);
      [lia | exact Hj |].
    exists 0%nat, (S j'). simpl. split; [lia|]. split; [reflexivity | exact E].
  - destruct (IH i j) as (i' & j' & H' & E1 & E2); [lia | exact Hi | exact Hj |].
    simpl. destruct (f x).
    + exists (S i'), (S j'). simpl. split; [lia|]. split; assumption.
    + exists i', j'. split; [lia|]. split; assumption.
Qed.

Lemma find_min_hamming_distance_in_group_qualifying (group : list vec)
  (indices : list nat) (n i j : nat) :
  group <> [] ->
  Forall (fun v => List.length v = n) group ->
  Forall (fun idx => (idx < n)%nat) indices ->
  (i < j < List.length group)%nat ->
  agree_on indices (nth i group []) (nth j group []) ->
  exists r,
    find_min_hamming_distance_in_group group indices = Ok r /\
    fst r <= pair_distance group (i, j).
Proof.
  intros Hne Hall Hcov Hij Hagree.
  rewrite find_min_hamming_distance_in_group_erase.
  rewrite (find_min_hamming_distance_in_group_scan group indices n Hne Hall Hcov).
  cbn [bind fst]. eexists. split; [reflexivity|].
  apply scan_lower. apply filter_In. split; [apply in_index_pairs; exact Hij|].
  unfold qualifies. cbn [fst snd].
  apply (agree_onb_spec indices _ _ n); auto;
    apply Forall_nth_length; auto; lia.
Qed.

Lemma for_each_collect_In {A B : Type} (f : A -> result B) (xs : list A)
  (acc acc' : list B) :
  for_each xs (fun x acc => y <- f x ;; Ok (acc ++ [y])) acc = Ok acc' ->
  forall x y, In x xs -> f x = Ok y -> In y acc'.
Proof.
  revert acc. induction xs as [|x0 xs IH]; intros acc Hrun x y Hx Hy;
    [destruct Hx|].
  simpl in Hrun. apply bind_Ok_inv in Hrun as (acc1 & Hb & Hrun).
  apply bind_Ok_inv in Hb as (y0 & Hy0 & Hacc1). injection Hacc1 as <-.
  destruct Hx as [<-|Hx]; [|apply (IH _ Hrun x y Hx Hy)].
  assert (Hin : In y (acc ++ [y0]))
    by (apply in_or_app; right; left; congruence).
  clear -Hrun Hin. revert acc' Hrun. generalize (acc ++ [y0]) Hin.
  induction xs as [|x1 xs IH]; intros a Ha acc' Hrun; simpl in Hrun.
  - injection Hrun as <-. exact Ha.
  - apply bind_Ok_inv in Hrun as (a1 & Hb & Hrun).
    apply bind_Ok_inv in Hb as (y1 & _ & Ha1). injection Ha1 as <-.
    apply (IH (a ++ [y1])); [apply in_or_app; left; exact Ha | exact Hrun].
Qed.

Lemma group_by_key_home (vectors : list vec) (indices : list nat)
  (groups : groups_dict) (v : vec) (k : list Z) :
  group_by_key vectors indices = Ok groups ->
  In v vectors -> key_of indices v = Ok k ->
  In (filter (has_key indices k) vectors) (map snd groups).
Proof.
  intros Hrun Hv Hk.
  pose proof (group_by_key_invariant _ _ _ Hrun) as (Hnd & Hget & _).
  assert (Hf : In v (filter (has_key indices k) vectors))
    by (apply filter_In; split; [exact Hv | apply has_key_iff; exact Hk]).
  destruct (bucket_of indices vectors k) as [g|] eqn:Hb.
  - pose proof (bucket_of_Some _ _ _ _ Hb) as [<- _].
    apply in_map_iff. exists (k, g). split; [reflexivity|].
    apply (dict_get_In _ _ _ Hnd). rewrite Hget. exact Hb.
  - unfold bucket_of in Hb.
    destruct (filter (has_key indices k) vectors); [destruct Hf | discriminate].
Qed.

(** A round in which two vectors agree on the grouping sample and on the
    filter sample reports at most their distance. *)
Lemma lsh_round_hit (vectors : list vec) (n : nat)
  (num_of_lsh_bits log_n : Z) (results : list search_result) (t : tape)
  (i j : nat) :
  vectors <> [] ->
  Forall (fun v => List.length v = n) vectors ->
  valid_sample (Z.of_nat n) num_of_lsh_bits (t 0%nat) ->
  valid_sample (Z.of_nat n) log_n (t 1%nat) ->
  (i < j < List.length vectors)%nat ->
  agree_on (t 0%nat) (nth i vectors []) (nth j vectors []) ->
  agree_on (t 1%nat) (nth i vectors []) (nth j vectors []) ->
  exists r,
    lsh_round vectors num_of_lsh_bits log_n results t
    = Ok (results ++ [r], fun k => t (S (S k))) /\
    fst r <= pair_distance vectors (i, j).
Proof.
  intros Hne Hall Hv0 Hv1 Hij Hag0 Hag1.
  destruct (lsh_round_defined vectors n num_of_lsh_bits log_n results t
              Hne Hall Hv0 Hv1) as (r & Hround & _).
  exists r. split; [exact Hround|].
  pose proof (valid_sample_covered n _ _ Hv0) as [Hcov0 _].
  pose proof (valid_sample_covered n _ _ Hv1) as [Hcov1 _].
  destruct (classify_vectors_by_random_bits_run vectors num_of_lsh_bits t n
              Hne Hall Hv0) as (gs & Hgs & Hclassify).
  unfold lsh_round, bindM in Hround. rewrite Hclassify in Hround.
  destruct vectors as [|v0 rest] eqn:Evs; [congruence|]. rewrite <- Evs in *.
  assert (Hget0 : py_getitem vectors 0 = Ok v0) by (rewrite Evs; reflexivity).
  rewrite Hget0 in Hround. cbn [lift] in Hround.
  assert (Hlen0 : len v0 = Z.of_nat n).
  { unfold len. f_equal. rewrite Forall_forall in Hall. apply Hall.
    rewrite Evs. left. reflexivity. }
  rewrite Hlen0 in Hround.
  unfold find_min_hamming_distance_across_groups, bindM in Hround.
  rewrite (np_random_choice_valid n log_n (fun k => t (S k)) Hv1) in Hround.
  destruct (for_each (map snd gs) _ []) as [min_values|e] eqn:Hloop;
    cbn [lift] in Hround; [|discriminate].
  destruct (py_min min_values) as [r0|e] eqn:Hmin; [|discriminate].
  unfold ret in Hround. injection Hround as Hr.
  apply app_inv_head in Hr. injection Hr as ->.
  apply py_min_sound in Hmin as [_ Hle].
  (* the group of the two vectors *)
  set (a := nth i vectors []) in *. set (b := nth j vectors []) in *.
  assert (Ha : In a vectors) by (apply nth_In; lia).
  assert (Hb : In b vectors) by (apply nth_In; lia).
  assert (Hla : List.length a = n) by (apply Forall_nth_length; auto; lia).
  assert (Hlb : List.length b = n) by (apply Forall_nth_length; auto; lia).
  pose proof (key_of_covered (t 0%nat) a n Hla Hcov0) as Hka.
  assert (Hkb : key_of (t 0%nat) b = key_of (t 0%nat) a)
    by (symmetry; apply (key_of_eq_agree (t 0%nat) a b n); assumption).
  set (k := map (fun idx => nth idx a 0) (t 0%nat)) in *.
  set (g := filter (has_key (t 0%nat) k) vectors).
  assert (Hg : In g (map snd gs))
    by (apply (group_by_key_home vectors (t 0%nat) gs a k); assumption).
  destruct (filter_pair_positions_forward (has_key (t 0%nat) k) vectors [] i j)
    as (i' & j' & Hij' & Ei & Ej);
    [lia | apply has_key_iff; exact Hka
    | apply has_key_iff; exact (eq_trans Hkb Hka) |].
  fold g in Hij', Ei, Ej. fold a in Ei. fold b in Ej.
  destruct (find_min_hamming_distance_in_group_qualifying g (t 1%nat) n i' j')
    as (rg & Hrg & Hrg_le).
  - intros E. rewrite E in Hij'. simpl in Hij'. lia.
  - apply Forall_forall. intros v Hv. apply filter_In in Hv as [Hv _].
    rewrite Forall_forall in Hall. auto.
  - exact Hcov1.
  - exact Hij'.
  - rewrite Ei, Ej. exact Hag1.
  - assert (Hin : In rg min_values)
      by (apply (for_each_collect_In _ _ _ _ Hloop g rg Hg Hrg)).
    specialize (Hle rg Hin).
    unfold pair_distance in *. cbn [fst snd] in *.
    rewrite Ei, Ej in Hrg_le. fold a. fold b. lia.
Qed.

Lemma lsh_rounds_hit (vectors : list vec) (n : nat)
  (num_of_lsh_bits log_n : Z) (i j : nat) :
  vectors <> [] ->
  Forall (fun v => List.length v = n) vectors ->
  (i < j < List.length vectors)%nat ->
  forall (rounds round : nat) (results results' : list search_result)
         (t t' : tape),
    admissible_tape (Z.of_nat n) num_of_lsh_bits log_n rounds t ->
    (round < rounds)%nat ->
    agree_on (t (2 * round)%nat) (nth i vectors []) (nth j vectors []) ->
    agree_on (t (2 * round + 1)%nat) (nth i vectors []) (nth j vectors []) ->
    repeat_M rounds (lsh_round vectors num_of_lsh_bits log_n) results t
    = Ok (results', t') ->
    exists r, In r results' /\ fst r <= pair_distance vectors (i, j).
Proof.
  intros Hne Hall Hij. induction rounds as [|rounds IH];
    intros round results results' t t' Hadm Hround Hag0 Hag1 Hrun; [lia|].
  destruct (Hadm 0%nat) as [Hv0 Hv1]; [lia|].
  simpl in Hrun. unfold bindM in Hrun.
  destruct round as [|round].
  - destruct (lsh_round_hit vectors n num_of_lsh_bits log_n results t i j
                Hne Hall Hv0 Hv1 Hij Hag0 Hag1) as (r & Hr & Hle).
    rewrite Hr in Hrun. apply lsh_rounds_extend in Hrun as [extra ->].
    exists r. split; [|exact Hle].
    apply in_or_app. left. apply in_or_app. right. left. reflexivity.
  - destruct (lsh_round_defined vectors n num_of_lsh_bits log_n results t
                Hne Hall Hv0 Hv1) as (r & Hr & _).
    rewrite Hr in Hrun.
    replace (2 * S round)%nat with (S (S (2 * round))) in Hag0 by lia.
    replace (2 * S round + 1)%nat with (S (S (2 * round + 1))) in Hag1 by lia.
    apply (IH round (results ++ [r]) results' (fun k => t (S (S k))) t');
      [| lia | exact Hag0 | exact Hag1 | exact Hrun].
    intros m Hm. destruct (Hadm (S m)) as [Ha Hb]; [lia|].
    replace (2 * S m)%nat with (S (S (2 * m))) in Ha by lia.
    replace (2 * S m + 1)%nat with (S (S (2 * m + 1))) in Hb by lia.
    split; assumption.
Qed.

(** X10. The LSH Aggregator returns the exact minimum distance as soon as,
    in one of its rounds, two vectors at minimum distance agree both at
    the positions of the round's grouping sample and at the positions of
    its filter sample (collection of at least two vectors of one length,
    widths computed, draws that answer the calls). *)
Theorem find_min_hamming_using_LSH_exact_when_pair_survives
  (libm_log2 : float -> float) (vectors : list vec) (n : nat)
  (iterations : Z) (t : tape) (num_of_lsh_bits log_n : Z)
  (exact : search_result) (round i j : nat) :
  (2 <= List.length vectors)%nat ->
  Forall (fun v => List.length v = n) vectors ->
  lsh_widths libm_log2 vectors = Ok (num_of_lsh_bits, log_n) ->
  admissible_tape (Z.of_nat n) num_of_lsh_bits log_n (Z.to_nat iterations) t ->
  find_min_hamming_distance vectors = Ok exact ->
  (round < Z.to_nat iterations)%nat ->
  (i < j < List.length vectors)%nat ->
  calculate_hamming_distance (nth i vectors []) (nth j vectors [])
  = Ok (fst exact) ->
  agree_on (t (2 * round)%nat) (nth i vectors []) (nth j vectors []) ->
  agree_on (t (2 * round + 1)%nat) (nth i vectors []) (nth j vectors []) ->
  exists approx t',
    find_min_hamming_using_LSH libm_log2 vectors iterations t
    = Ok (approx, t') /\
    fst approx = fst exact.
Proof.
  intros Hlen Hall Hwidths Hadm Hexact Hround Hij Hdist Hag0 Hag1.
  assert (Hne : vectors <> [])
    by (destruct vectors; [simpl in Hlen; lia | congruence]).
  destruct (find_min_hamming_using_LSH_defined libm_log2 vectors n iterations
              t num_of_lsh_bits log_n Hne Hall) as (approx & t' & Hrun & _);
    [lia | exact Hwidths | exact Hadm |].
  exists approx, t'. split; [exact Hrun|].
  apply Z.le_antisymm.
  - (* some round result is at most the distance of the pair *)
    pose proof Hrun as Hrun'.
    unfold find_min_hamming_using_LSH, bindM in Hrun'.
    rewrite Hwidths in Hrun'. cbn [lift] in Hrun'.
    destruct (repeat_M _ _ [] t) as [[results t1]|e] eqn:Hloop;
      [|discriminate].
    destruct (py_min results) as [r0|e] eqn:Hmin; [|discriminate].
    injection Hrun' as -> _.
    destruct (lsh_rounds_hit vectors n num_of_lsh_bits log_n i j Hne Hall Hij
                _ round _ _ _ _ Hadm Hround Hag0 Hag1 Hloop)
      as (r & Hin & Hle).
    apply py_min_sound in Hmin as [_ Hall_le]. specialize (Hall_le r Hin).
    apply calculate_hamming_distance_Ok_hamming in Hdist.
    unfold pair_distance in Hle. cbn [fst snd] in Hle. lia.
  - destruct (find_min_hamming_distance_lower_bound vectors n Hne Hall)
      as (e & He & Hlow).
    rewrite Hexact in He. injection He as <-. apply Hlow.
    apply (find_min_hamming_using_LSH_sound libm_log2 vectors n iterations
             t t'); assumption.
Qed.

Lemma find_min_hamming_using_LSH_exact_when_pair_survives_witness :
  (2 <= List.length [[0; 0; 0; 0]; [0; 0; 0; 1]; [1; 1; 1; 1]])%nat /\
  Forall (fun v : vec => List.length v = 4%nat)
    [[0; 0; 0; 0]; [0; 0; 0; 1]; [1; 1; 1; 1]] /\
  lsh_widths log2_ref [[0; 0; 0; 0]; [0; 0; 0; 1]; [1; 1; 1; 1]]
  = Ok (1, 2) /\
  admissible_tape 4 1 2 (Z.to_nat 2)
    (fun k => if Nat.even k then [0%nat] else [1%nat; 2%nat]) /\
  find_min_hamming_distance [[0; 0; 0; 0]; [0; 0; 0; 1]; [1; 1; 1; 1]]
  = Ok (1, Some ([0; 0; 0; 0], [0; 0; 0; 1])) /\
  (1 < Z.to_nat 2)%nat /\
  (0 < 1 < List.length [[0; 0; 0; 0]; [0; 0; 0; 1]; [1; 1; 1; 1]])%nat /\
  calculate_hamming_distance [0; 0; 0; 0] [0; 0; 0; 1] = Ok 1 /\
  agree_on [0%nat] [0; 0; 0; 0] [0; 0; 0; 1] /\
  agree_on [1%nat; 2%nat] [0; 0; 0; 0] [0; 0; 0; 1] /\
  exists approx t',
    find_min_hamming_using_LSH log2_ref
      [[0; 0; 0; 0]; [0; 0; 0; 1]; [1; 1; 1; 1]] 2
      (fun k => if Nat.even k then [0%nat] else [1%nat; 2%nat])
    = Ok (approx, t') /\
    fst approx = 1.
Proof.
  assert (Hlen : (2 <= List.length
                         [[0; 0; 0; 0]; [0; 0; 0; 1]; [1; 1; 1; 1]])%nat)
    by (simpl; lia).
  assert (Hall : Forall (fun v : vec => List.length v = 4%nat)
                   [[0; 0; 0; 0]; [0; 0; 0; 1]; [1; 1; 1; 1]])
    by (repeat constructor).
  assert (Hw : lsh_widths log2_ref
                 [[0; 0; 0; 0]; [0; 0; 0; 1]; [1; 1; 1; 1]] = Ok (1, 2))
    by (vm_compute; reflexivity).
  assert (Hadm : admissible_tape (Z.of_nat 4) 1 2 (Z.to_nat 2)
                   (fun k => if Nat.even k then [0%nat] else [1%nat; 2%nat])).
  { intros i Hi. destruct i as [|[|i]]; [| |simpl in Hi; lia];
      (split; (split; [reflexivity|]);
       (split; [repeat constructor; simpl; intuition discriminate|]);
       repeat constructor). }
  assert (Hexact : find_min_hamming_distance
                     [[0; 0; 0; 0]; [0; 0; 0; 1]; [1; 1; 1; 1]]
                   = Ok (1, Some ([0; 0; 0; 0], [0; 0; 0; 1])))
    by reflexivity.
  assert (Hround : (1 < Z.to_nat 2)%nat) by (simpl; lia).
  assert (Hij : (0 < 1 < List.length
                   [[0; 0; 0; 0]; [0; 0; 0; 1]; [1; 1; 1; 1]])%nat)
    by (simpl; lia).
  assert (Hd : calculate_hamming_distance [0; 0; 0; 0] [0; 0; 0; 1] = Ok 1)
    by reflexivity.
  assert (Hag0 : agree_on [0%nat] [0; 0; 0; 0] [0; 0; 0; 1])
    by (repeat constructor).
  assert (Hag1 : agree_on [1%nat; 2%nat] [0; 0; 0; 0] [0; 0; 0; 1])
    by (repeat constructor).
  repeat (split; [assumption|]).
  apply (find_min_hamming_using_LSH_exact_when_pair_survives log2_ref
           [[0; 0; 0; 0]; [0; 0; 0; 1]; [1; 1; 1; 1]] 4 2
           (fun k => if Nat.even k then [0%nat] else [1%nat; 2%nat]) 1 2
           (1, Some ([0; 0; 0; 0], [0; 0; 0; 1])) 1 0 1
           Hlen Hall Hw Hadm Hexact Hround Hij Hd Hag0 Hag1).
Defined.

(** ** The number of groups of the Bucketizer *)

Lemma bit_tuples_length (width : nat) :
  List.length (bit_tuples width) = (2 ^ width)%nat.
Proof.
  induction width as [|w IH]; [reflexivity|].
  cbn [bit_tuples]. rewrite length_app, !length_map, IH. simpl. lia.
Qed.

Lemma bit_tuples_complete (key : list Z) :
  binary key -> In key (bit_tuples (List.length key)).
Proof.
  induction 1 as [|b key Hb _ IH]; [left; reflexivity|].
  cbn [List.length bit_tuples]. apply in_or_app.
  destruct Hb as [->| ->]; [left | right]; apply in_map; exact IH.
Qed.

Lemma nonempty_groups_count {A : Type} (groups : list (list A)) :
  Forall (fun g => g <> []) groups ->
  (List.length groups <= List.length (concat groups))%nat.
Proof.
  induction 1 as [|g groups Hg _ IH]; [reflexivity|].
  simpl. rewrite length_app. destruct g; [congruence | simpl; lia].
Qed.

Lemma binary_key (indices : list nat) (v : vec) :
  binary v -> Forall (fun idx => (idx < List.length v)%nat) indices ->
  binary (map (fun idx => nth idx v 0) indices).
Proof.
  intros Hv Hcov. unfold binary in *. apply Forall_forall.
  intros b Hb. apply in_map_iff in Hb as (idx & <- & Hidx).
  rewrite Forall_forall in Hv, Hcov. apply Hv. apply nth_In. auto.
Qed.

(** X7. On a non-empty collection of [m] binary vectors of one length and
    a grouping sample of [k] positions, the Bucketizer returns at least
    one and at most [min(m, 2^k)] groups. *)
Theorem classify_vectors_by_random_bits_group_count (vectors : list vec)
  (num_of_bits : Z) (t : tape) (n : nat) :
  vectors <> [] ->
  Forall (fun v => List.length v = n) vectors ->
  Forall binary vectors ->
  valid_sample (Z.of_nat n) num_of_bits (t 0%nat) ->
  exists groups,
    classify_vectors_by_random_bits vectors num_of_bits t
    = Ok (groups, fun k => t (S k)) /\
    1 <= len groups /\ len groups <= len vectors /\
    len groups <= 2 ^ num_of_bits.
Proof.
  intros Hne Hall Hbin Hvalid.
  pose proof (valid_sample_covered n num_of_bits _ Hvalid) as [Hcov _].
  destruct (classify_vectors_by_random_bits_run vectors num_of_bits t n
              Hne Hall Hvalid) as (gs & Hrun & Hclassify).
  pose proof (group_by_key_invariant _ _ _ Hrun) as (Hnd & Hget & Hperm & _).
  exists (map snd gs). split; [exact Hclassify|].
  assert (Hnonempty : Forall (fun g => g <> []) (map snd gs)).
  { apply Forall_forall. intros g Hg.
    destruct (group_by_key_groups _ _ _ g Hrun Hg) as (_ & _ & _ & H).
    exact H. }
  unfold len. split; [|split].
  - destruct gs as [|p gs]; [|simpl; lia]. simpl in Hperm.
    apply Permutation_nil in Hperm. congruence.
  - apply Nat2Z.inj_le.
    rewrite <- (Permutation_length Hperm).
    apply nonempty_groups_count. exact Hnonempty.
  - destruct Hvalid as (Hsize & _ & _). unfold len in Hsize. rewrite <- Hsize.
    rewrite length_map, <- (length_map fst gs).
    change 2 with (Z.of_nat 2). rewrite <- Nat2Z.inj_pow.
    apply Nat2Z.inj_le. rewrite <- bit_tuples_length.
    apply NoDup_incl_length; [exact Hnd|]. intros k Hk.
    apply in_map_iff in Hk as ([k' g] & <- & Hin). cbn [fst].
    apply (dict_get_In _ _ _ Hnd) in Hin. rewrite Hget in Hin.
    apply bucket_of_Some in Hin as [Hg Hgne].
    destruct g as [|v g']; [congruence|].
    assert (Hv : In v (filter (has_key (t 0%nat) k') vectors))
      by (rewrite <- Hg; left; reflexivity).
    apply filter_In in Hv as [Hv Hk']. apply has_key_iff in Hk'.
    rewrite Forall_forall in Hall, Hbin.
    rewrite (key_of_covered (t 0%nat) v n (Hall v Hv) Hcov) in Hk'.
    injection Hk' as <-.
    rewrite <- (length_map (fun idx => nth idx v 0) (t 0%nat)).
    apply bit_tuples_complete. apply binary_key; [apply Hbin; exact Hv|].
    rewrite (Hall v Hv). exact Hcov.
Qed.

Lemma classify_vectors_by_random_bits_group_count_witness :
  [[0; 0; 1]; [1; 0; 0]; [0; 1; 1]] <> [] /\
  Forall (fun v : vec => List.length v = 3%nat)
    [[0; 0; 1]; [1; 0; 0]; [0; 1; 1]] /\
  Forall binary [[0; 0; 1]; [1; 0; 0]; [0; 1; 1]] /\
  valid_sample 3 1 [2%nat] /\
  exists groups,
    classify_vectors_by_random_bits [[0; 0; 1]; [1; 0; 0]; [0; 1; 1]] 1
      (fun _ => [2%nat])
    = Ok (groups, fun _ => [2%nat]) /\
    1 <= len groups /\
    len groups <= len [[0; 0; 1]; [1; 0; 0]; [0; 1; 1]] /\
    len groups <= 2 ^ 1.
Proof.
  assert (Hv : valid_sample (Z.of_nat 3) 1 [2%nat]).
  { split; [reflexivity|]. split; [repeat constructor; intros []|].
    repeat constructor. }
  assert (Hbin : Forall binary [[0; 0; 1]; [1; 0; 0]; [0; 1; 1]])
    by (repeat constructor; auto).
  split; [discriminate|]. split; [repeat constructor|].
  split; [exact Hbin|]. split; [exact Hv|].
  apply (classify_vectors_by_random_bits_group_count
           [[0; 0; 1]; [1; 0; 0]; [0; 1; 1]] 1 (fun _ => [2%nat]) 3);
    [discriminate | repeat constructor | exact Hbin | exact Hv].
Defined.

(** ** Evaluation Harness: what is recorded and reported *)

(** Whenever both searches return on one collection, whatever its vectors,
    the exact distance is non-negative and at most the approximate one. *)
Lemma exact_le_approx (libm_log2 : float -> float) (vectors : list vec)
  (iterations : Z) (t t' : tape) (exact approx : search_result) :
  find_min_hamming_distance vectors = Ok exact ->
  find_min_hamming_using_LSH libm_log2 vectors iterations t
  = Ok (approx, t') ->
  0 <= fst exact <= fst approx.
Proof.
  intros Hexact Hrun.
  pose proof (find_min_hamming_distance_Ok_inv _ _ Hexact) as [Hne Hall].
  set (n := List.length (nth 0 vectors [])) in *.
  split.
  - rewrite (find_min_hamming_distance_scan vectors n Hne Hall) in Hexact.
    injection Hexact as <-.
    destruct (scan_attained (pair_distance vectors) (pair_at vectors)
                (index_pairs (List.length vectors)) (Z.of_nat n + 1))
      as [->|(c & _ & ->)]; [lia|].
    unfold pair_distance. apply hamming_bounds.
  - destruct (find_min_hamming_distance_lower_bound vectors n Hne Hall)
      as (e & He & Hlow).
    rewrite Hexact in He. injection He as <-. apply Hlow.
    apply (find_min_hamming_using_LSH_sound libm_log2 vectors n iterations
             t t'); assumption.
Qed.

Lemma get_min_hamming_results_inv (libm_log2 : float -> float)
  (num_of_vectors vector_length lsh_iter : Z) (t t' : tape) (e a : Z) :
  get_min_hamming_results libm_log2 num_of_vectors vector_length lsh_iter t
  = Ok ((e, a), t') ->
  exists binary_vectors t1 exact approx,
    generate_binary_vectors num_of_vectors vector_length t
    = Ok (binary_vectors, t1) /\
    find_min_hamming_distance binary_vectors = Ok exact /\
    find_min_hamming_using_LSH libm_log2 binary_vectors lsh_iter t1
    = Ok (approx, t') /\
    e = fst exact /\ a = fst approx.
Proof.
  unfold get_min_hamming_results. intros Hrun.
  apply bindM_Ok_inv in Hrun as (bv & t1 & Hgen & Hrun).
  apply bindM_Ok_inv in Hrun as (exact & t2 & Hexact & Hrun).
  apply lift_Ok_inv in Hexact as [Hexact ->].
  apply bindM_Ok_inv in Hrun as (approx & t3 & Happrox & Hrun).
  unfold ret in Hrun. injection Hrun as <- <- <-.
  exists bv, t1, exact, approx. repeat split; assumption.
Qed.

(** X12. Whenever [get_min_hamming_results] returns, for whatever
    arguments and draws, the exact distance it returns is non-negative and
    at most the approximate distance it returns. *)
Theorem get_min_hamming_results_ordered (libm_log2 : float -> float)
  (num_of_vectors vector_length lsh_iter : Z) (t t' : tape) (e a : Z) :
  get_min_hamming_results libm_log2 num_of_vectors vector_length lsh_iter t
  = Ok ((e, a), t') ->
  0 <= e <= a.
Proof.
  intros Hrun.
  apply get_min_hamming_results_inv in Hrun
    as (bv & t1 & exact & approx & _ & Hexact & Happrox & -> & ->).
  apply (exact_le_approx libm_log2 bv lsh_iter t1 t'); assumption.
Qed.

Lemma get_min_hamming_results_ordered_witness :
  exists e a t',
    get_min_hamming_results log2_ref 3 4 1
      (fun k => nth k [[0; 0; 0; 0]; [0; 0; 0; 1]; [1; 1; 1; 1]; [3]; [0; 1]]%nat
                  [])
    = Ok ((e, a), t') /\
    0 <= e <= a.
Proof.
  assert (Hrun : { p | get_min_hamming_results log2_ref 3 4 1
      (fun k => nth k [[0; 0; 0; 0]; [0; 0; 0; 1]; [1; 1; 1; 1]; [3]; [0; 1]]%nat
                  []) = Ok p })
    by (eexists; vm_compute; reflexivity).
  destruct Hrun as [[[e a] t'] Hrun]. exists e, a, t'.
  split; [exact Hrun|].
  apply (get_min_hamming_results_ordered log2_ref 3 4 1 _ t' e a Hrun).
Defined.


(** ** Evaluation Harness: the reported statistics *)

(** The statistics are binary64 numbers: 23 hits in 160 trials are
    reported as a hit rate strictly below 14.375. *)
Lemma hit_rate_is_rounded :
  exists fraction,
    py_truediv 23 160 = Ok fraction /\
    PrimFloat.ltb (PrimFloat.mul fraction 100) 14.375 = true.
Proof. eexists. split; vm_compute; reflexivity. Qed.












(** ** The entry point of [min_hamming_LSH.py] *)

(** X14. Once the vectors are generated and the LSH Aggregator has
    returned, [main] first prints the distance.  If the result carries no
    pair, [main] then raises [TypeError] ([None] is not subscriptable) and
    the printed distance is the length of a generated vector plus one;
    otherwise it prints two vectors found at two positions [i < j] of the
    generated collection whose Hamming distance is the printed number, and
    ends normally. *)
Theorem min_hamming_LSH_main_outcome (libm_log2 : float -> float)
  (vectors length iterations : Z) (t t1 t2 : tape)
  (binary_vectors : list vec) (r : search_result) :
  generate_binary_vectors vectors length t = Ok (binary_vectors, t1) ->
  find_min_hamming_using_LSH libm_log2 binary_vectors iterations t1
  = Ok (r, t2) ->
  match snd r with
  | None =>
      min_hamming_LSH_main libm_log2 vectors length iterations t
      = ([PrintInt "Minimum Hamming distance is"%string (fst r)],
         Err (TypeError "'NoneType' object is not subscriptable"%string)) /\
      exists v, In v binary_vectors /\ fst r = len v + 1
  | Some (v1, v2) =>
      min_hamming_LSH_main libm_log2 vectors length iterations t
      = ([PrintInt "Minimum Hamming distance is"%string (fst r);
          PrintVec "V1: "%string v1; PrintVec "V2: "%string v2],
         Ok t2) /\
      exists i j,
        (i < j)%nat /\ nth_error binary_vectors i = Some v1 /\
        nth_error binary_vectors j = Some v2 /\
        calculate_hamming_distance v1 v2 = Ok (fst r)
  end.
Proof.
  intros Hgen Hrun.
  assert (Hgenuine : genuine binary_vectors r).
  { apply (find_min_hamming_using_LSH_result_genuine libm_log2 _ iterations
             t1 t2). exact Hrun. }
  assert (Hmain : min_hamming_LSH_main libm_log2 vectors length iterations t
                  = match snd r with
                    | None =>
                        ([PrintInt "Minimum Hamming distance is"%string (fst r)],
                         Err (TypeError
                                "'NoneType' object is not subscriptable"%string))
                    | Some (v1, v2) =>
                        ([PrintInt "Minimum Hamming distance is"%string (fst r);
                          PrintVec "V1: "%string v1; PrintVec "V2: "%string v2],
                         Ok t2)
                    end).
  { unfold min_hamming_LSH_main, bindM. rewrite Hgen, Hrun. reflexivity. }
  unfold genuine in Hgenuine.
  destruct (snd r) as [[v1 v2]|]; split; assumption.
Qed.

Lemma min_hamming_LSH_main_outcome_witness :
  generate_binary_vectors 3 4
    (fun k => nth k [[0; 0; 0; 0]; [0; 0; 0; 1]; [1; 1; 1; 1]; [3]; [0; 1]]%nat
                [])
  = Ok ([[0; 0; 0; 0]; [0; 0; 0; 1]; [1; 1; 1; 1]],
        fun k => nth k [[3]; [0; 1]]%nat []) /\
  find_min_hamming_using_LSH log2_ref
    [[0; 0; 0; 0]; [0; 0; 0; 1]; [1; 1; 1; 1]] 1
    (fun k => nth k [[3]; [0; 1]]%nat [])
  = Ok ((5, None), fun k => nth k ([] : list (list nat)) []) /\
  min_hamming_LSH_main log2_ref 3 4 1
    (fun k => nth k [[0; 0; 0; 0]; [0; 0; 0; 1]; [1; 1; 1; 1]; [3]; [0; 1]]%nat
                [])
  = ([PrintInt "Minimum Hamming distance is"%string 5],
     Err (TypeError "'NoneType' object is not subscriptable"%string)).
Proof.
  assert (Hgen : generate_binary_vectors 3 4
      (fun k => nth k [[0; 0; 0; 0]; [0; 0; 0; 1]; [1; 1; 1; 1]; [3]; [0; 1]]%nat
                  [])
      = Ok ([[0; 0; 0; 0]; [0; 0; 0; 1]; [1; 1; 1; 1]],
            fun k => nth k [[3]; [0; 1]]%nat []))
    by reflexivity.
  assert (Hrun : find_min_hamming_using_LSH log2_ref
      [[0; 0; 0; 0]; [0; 0; 0; 1]; [1; 1; 1; 1]] 1
      (fun k => nth k [[3]; [0; 1]]%nat [])
      = Ok ((5, None), fun k => nth k ([] : list (list nat)) []))
    by (vm_compute; reflexivity).
  split; [exact Hgen|]. split; [exact Hrun|].
  apply (min_hamming_LSH_main_outcome log2_ref 3 4 1 _ _ _ _ (5, None)
           Hgen Hrun).
Defined.

(** ** The sentinel is told apart from a distance *)

(** X11. On vectors of one length [n], a result returned by the LSH
    Aggregator, whatever the draws, carries no pair exactly when its
    distance is [n + 1]; with a pair the distance lies between 0 and [n].
    The out-of-range distance therefore identifies the no-pair result. *)
Theorem find_min_hamming_using_LSH_sentinel (libm_log2 : float -> float)
  (vectors : list vec) (n : nat) (iterations : Z) (t t' : tape)
  (r : search_result) :
  Forall (fun v => List.length v = n) vectors ->
  find_min_hamming_using_LSH libm_log2 vectors iterations t = Ok (r, t') ->
  (snd r = None <-> fst r = Z.of_nat n + 1) /\
  (snd r <> None -> 0 <= fst r <= Z.of_nat n).
Proof.
  intros Hall Hrun.
  apply find_min_hamming_using_LSH_result_genuine in Hrun.
  unfold genuine in Hrun. rewrite Forall_forall in Hall.
  destruct (snd r) as [[a b]|].
  - destruct Hrun as (i & j & _ & Ha & _ & Hd).
    apply nth_error_In in Ha. apply Hall in Ha.
    pose proof (calculate_hamming_distance_Ok_hamming _ _ _ Hd) as E.
    pose proof (hamming_bounds a b) as Hb. unfold len in Hb.
    rewrite Ha in Hb. split; [split; [discriminate | lia] | lia].
  - destruct Hrun as (v & Hv & Hr). apply Hall in Hv. unfold len in Hr.
    rewrite Hv in Hr. split; [tauto | congruence].
Qed.

Lemma find_min_hamming_using_LSH_sentinel_witness :
  Forall (fun v : vec => List.length v = 4%nat)
    [[0; 0; 0; 0]; [0; 0; 0; 1]; [1; 1; 1; 1]] /\
  find_min_hamming_using_LSH log2_ref
    [[0; 0; 0; 0]; [0; 0; 0; 1]; [1; 1; 1; 1]] 1
    (fun k => nth k [[3]; [0; 1]]%nat [])
  = Ok ((5, None), fun k => nth k ([] : list (list nat)) []) /\
  ((snd ((5, None) : search_result) = None
    <-> fst ((5, None) : search_result) = Z.of_nat 4 + 1) /\
   (snd ((5, None) : search_result) <> None ->
    0 <= fst ((5, None) : search_result) <= Z.of_nat 4)).
Proof.
  assert (Hall : Forall (fun v : vec => List.length v = 4%nat)
                   [[0; 0; 0; 0]; [0; 0; 0; 1]; [1; 1; 1; 1]])
    by (repeat constructor).
  assert (Hrun : find_min_hamming_using_LSH log2_ref
      [[0; 0; 0; 0]; [0; 0; 0; 1]; [1; 1; 1; 1]] 1
      (fun k => nth k [[3]; [0; 1]]%nat [])
      = Ok ((5, None), fun k => nth k ([] : list (list nat)) []))
    by (vm_compute; reflexivity).
  split; [exact Hall|]. split; [exact Hrun|].
  apply (find_min_hamming_using_LSH_sentinel log2_ref _ 4 1 _ _ (5, None)
           Hall Hrun).
Defined.

(** ** Draws consumed by the LSH search *)

Lemma np_random_choice_Ok_inv (a size : Z) (t t' : tape) (s : list nat) :
  np_random_choice a size t = Ok (s, t') ->
  s = t 0%nat /\ t' = fun k => t (S k).
Proof.
  unfold np_random_choice, raise, next_draw.
  repeat match goal with
         | |- context [if ?c then _ else _] => destruct c
         end; intros H; try discriminate.
  injection H as <- <-. split; reflexivity.
Qed.

Lemma classify_vectors_by_random_bits_tape (vectors : list vec)
  (num_of_bits : Z) (t t' : tape) (groups : list (list vec)) :
  vectors <> [] ->
  classify_vectors_by_random_bits vectors num_of_bits t = Ok (groups, t') ->
  t' = fun k => t (S k).
Proof.
  intros Hne Hrun. unfold classify_vectors_by_random_bits in Hrun.
  destruct vectors as [|v0 rest]; [congruence|].
  apply bindM_Ok_inv in Hrun as (v & t1 & Hv & Hrun).
  apply lift_Ok_inv in Hv as [_ ->].
  apply bindM_Ok_inv in Hrun as (indices & t2 & Hdraw & Hrun).
  apply np_random_choice_Ok_inv in Hdraw as [_ ->].
  apply bindM_Ok_inv in Hrun as (gs & t3 & Hgs & Hrun).
  apply lift_Ok_inv in Hgs as [_ ->].
  unfold ret in Hrun. injection Hrun as _ <-. reflexivity.
Qed.

Lemma find_min_hamming_distance_across_groups_tape
  (groups : list (list vec)) (vector_length num_of_sample_bits : Z)
  (t t' : tape) (r : search_result) :
  find_min_hamming_distance_across_groups groups vector_length
    num_of_sample_bits t = Ok (r, t') ->
  t' = fun k => t (S k).
Proof.
  unfold find_min_hamming_distance_across_groups. intros Hrun.
  apply bindM_Ok_inv in Hrun as (sample_bits & t1 & Hdraw & Hrun).
  apply np_random_choice_Ok_inv in Hdraw as [_ ->].
  apply bindM_Ok_inv in Hrun as (min_values & t2 & Hloop & Hrun).
  apply lift_Ok_inv in Hloop as [_ ->].
  apply lift_Ok_inv in Hrun as [_ ->]. reflexivity.
Qed.

Lemma lsh_round_tape (vectors : list vec) (num_of_lsh_bits log_n : Z)
  (results results' : list search_result) (t t' : tape) :
  vectors <> [] ->
  lsh_round vectors num_of_lsh_bits log_n results t = Ok (results', t') ->
  t' = fun k => t (S (S k)).
Proof.
  intros Hne Hrun. unfold lsh_round in Hrun.
  apply bindM_Ok_inv in Hrun as (groups & t1 & Hgroups & Hrun).
  apply classify_vectors_by_random_bits_tape in Hgroups; [|exact Hne].
  subst t1.
  apply bindM_Ok_inv in Hrun as (v0 & t2 & Hv0 & Hrun).
  apply lift_Ok_inv in Hv0 as [_ ->].
  apply bindM_Ok_inv in Hrun as (r & t3 & Hr & Hrun).
  apply find_min_hamming_distance_across_groups_tape in Hr. subst t3.
  unfold ret in Hrun. injection Hrun as _ <-. reflexivity.
Qed.

Lemma lsh_rounds_tape (vectors : list vec) (num_of_lsh_bits log_n : Z)
  (rounds : nat) (results results' : list search_result) (t t' : tape) :
  vectors <> [] ->
  repeat_M rounds (lsh_round vectors num_of_lsh_bits log_n) results t
  = Ok (results', t') ->
  forall k, t' k = t (2 * rounds + k)%nat.
Proof.
  intros Hne. revert results t.
  induction rounds as [|rounds IH]; intros results t Hrun k; simpl in Hrun.
  - unfold ret in Hrun. injection Hrun as _ <-. reflexivity.
  - apply bindM_Ok_inv in Hrun as (rs1 & t1 & Hround & Hrun).
    apply lsh_round_tape in Hround; [|exact Hne]. subst t1.
    rewrite (IH _ _ Hrun k). f_equal. lia.
Qed.

(** X15. Whenever the LSH Aggregator returns, it has consumed exactly two
    draws per round from the random source (the grouping sample, then the
    filter sample): what the source yields afterwards is what it would
    have yielded [2 * iterations] draws later. *)
Theorem find_min_hamming_using_LSH_draws (libm_log2 : float -> float)
  (vectors : list vec) (iterations : Z) (t t' : tape) (r : search_result) :
  find_min_hamming_using_LSH libm_log2 vectors iterations t = Ok (r, t') ->
  forall k, t' k = t (2 * Z.to_nat iterations + k)%nat.
Proof.
  intros Hrun. unfold find_min_hamming_using_LSH in Hrun.
  apply bindM_Ok_inv in Hrun as ([k1 k2] & t1 & Hw & Hrun).
  apply lift_Ok_inv in Hw as [Hw ->].
  assert (Hne : vectors <> []) by (intros ->; discriminate).
  apply bindM_Ok_inv in Hrun as (results & t2 & Hloop & Hmin).
  apply lift_Ok_inv in Hmin as [_ ->].
  apply (lsh_rounds_tape vectors k1 k2 _ [] results t t2 Hne Hloop).
Qed.

Lemma find_min_hamming_using_LSH_draws_witness :
  exists r t',
    find_min_hamming_using_LSH log2_ref
      [[0; 0; 0; 0]; [0; 0; 0; 1]; [1; 1; 1; 1]] 2
      (fun k => nth k [[3]; [0; 1]; [0]; [1; 2]; [7]]%nat []) = Ok (r, t') /\
    forall k,
      t' k = nth (2 * Z.to_nat 2 + k) [[3]; [0; 1]; [0]; [1; 2]; [7]]%nat [].
Proof.
  assert (Hrun : { p | find_min_hamming_using_LSH log2_ref
      [[0; 0; 0; 0]; [0; 0; 0; 1]; [1; 1; 1; 1]] 2
      (fun k => nth k [[3]; [0; 1]; [0]; [1; 2]; [7]]%nat []) = Ok p })
    by (eexists; vm_compute; reflexivity).
  destruct Hrun as [[r t'] Hrun]. exists r, t'. split; [exact Hrun|].
  apply (find_min_hamming_using_LSH_draws log2_ref _ 2 _ t' r Hrun).
Defined.

(** ** Which entry the minimum-reduction selects *)

Lemma list_lt_irrefl (a : list Z) : list_lt a a = false.
Proof.
  induction a as [|x a IH]; [reflexivity|]. simpl. rewrite Z.eqb_refl. exact IH.
Qed.

Lemma list_lt_trans (a b c : list Z) :
  list_lt a b = true -> list_lt b c = true -> list_lt a c = true.
Proof.
  revert b c. induction a as [|x a IH]; intros [|y b] [|z c]; simpl;
    try discriminate; try reflexivity.
  destruct (Z.eqb_spec x y), (Z.eqb_spec y z), (Z.eqb_spec x z);
    try lia; rewrite ?Z.ltb_lt; try lia; try apply IH.
Qed.

Lemma list_lt_total (a b : list Z) :
  list_lt a b = false -> a = b \/ list_lt b a = true.
Proof.
  revert b. induction a as [|x a IH]; intros [|y b]; simpl;
    try discriminate; try (intros _; left; reflexivity);
    try (intros _; right; reflexivity).
  rewrite (Z.eqb_sym y x).
  destruct (Z.eqb_spec x y) as [->|N].
  - intros H. destruct (IH b H) as [->|H']; [left; reflexivity | right; exact H'].
  - rewrite Z.ltb_ge. intros H. right. apply Z.ltb_lt. lia.
Qed.

Lemma pair_lt_trans (p q s : vec * vec) :
  pair_lt p q = true -> pair_lt q s = true -> pair_lt p s = true.
Proof.
  unfold pair_lt.
  destruct (list_eq_dec Z.eq_dec (fst p) (fst q)) as [E1|N1],
           (list_eq_dec Z.eq_dec (fst q) (fst s)) as [E2|N2],
           (list_eq_dec Z.eq_dec (fst p) (fst s)) as [E3|N3];
    try congruence; try apply list_lt_trans.
  intros H1 H2. rewrite <- E3 in H2.
  pose proof (list_lt_trans _ _ _ H1 H2) as H.
  rewrite list_lt_irrefl in H. discriminate.
Qed.

Lemma pair_lt_total (p q : vec * vec) :
  pair_lt p q = false -> p = q \/ pair_lt q p = true.
Proof.
  unfold pair_lt. destruct p as [p1 p2], q as [q1 q2]. cbn [fst snd].
  destruct (list_eq_dec Z.eq_dec p1 q1) as [->|N].
  - destruct (list_eq_dec Z.eq_dec q1 q1); [|congruence].
    intros H. destruct (list_lt_total _ _ H) as [->|H'];
      [left; reflexivity | right; exact H'].
  - destruct (list_eq_dec Z.eq_dec q1 p1); [congruence|].
    intros H. destruct (list_lt_total _ _ H) as [E|H'];
      [congruence | right; exact H'].
Qed.

Lemma tuple_le_refl (r : search_result) : tuple_le r r.
Proof.
  right. split; [reflexivity|]. destruct (snd r); [left; reflexivity | exact I].
Qed.

Lemma tuple_lt_true_trans (item best x : search_result) :
  tuple_lt item best = Ok true -> tuple_le best x -> tuple_le item x.
Proof.
  unfold tuple_lt, tuple_le.
  destruct (Z.eqb_spec (fst item) (fst best)) as [E|N].
  - destruct (snd item) as [p|], (snd best) as [q|]; try discriminate.
    intros H. injection H as H. intros [Hlt|[Heq Hsnd]]; [left; lia|].
    right. split; [lia|]. destruct (snd x) as [s|]; [|exact Hsnd].
    right. destruct Hsnd as [<-|Hqs]; [exact H | eapply pair_lt_trans; eauto].
  - intros H. injection H as H. apply Z.ltb_lt in H.
    intros [Hlt|[Heq _]]; left; lia.
Qed.

Lemma tuple_lt_false_le (item best : search_result) :
  tuple_lt item best = Ok false -> tuple_le best item.
Proof.
  unfold tuple_lt, tuple_le.
  destruct (Z.eqb_spec (fst item) (fst best)) as [E|N].
  - destruct (snd item) as [p|], (snd best) as [q|]; try discriminate.
    + intros H. injection H as H. right. split; [lia|].
      destruct (pair_lt_total _ _ H) as [->|H']; [left; reflexivity | right; exact H'].
    + intros _. right. split; [lia | exact I].
  - intros H. injection H as H. apply Z.ltb_ge in H. left. lia.
Qed.

(** X16. Whenever the minimum-reduction of a round or of the rounds
    returns, the entry it returns is the least of the list in Python's
    order on tuples: it has the smallest distance and, among the entries
    of that distance, the lexicographically smallest pair of vectors (not
    the first one met). *)
Theorem py_min_least (results : list search_result) (r : search_result) :
  py_min results = Ok r ->
  In r results /\ forall x, In x results -> tuple_le r x.
Proof.
  destruct results as [|x0 rest]; [discriminate|]. unfold py_min.
  intros Hrun.
  apply (for_each_invariant
           (fun pre best =>
              In best (x0 :: pre) /\
              forall x, In x (x0 :: pre) -> tuple_le best x)) in Hrun;
    [exact Hrun | |].
  - split; [left; reflexivity|]. intros x [<-|[]]. apply tuple_le_refl.
  - intros pre item post best best' _ [Hin Hle] Hbody.
    apply bind_Ok_inv in Hbody as (b & Hlt & Hbest').
    injection Hbest' as <-. destruct b.
    + split; [right; apply in_or_app; right; left; reflexivity|].
      intros x [<-|Hx].
      * apply (tuple_lt_true_trans item best); [exact Hlt|].
        apply Hle. left. reflexivity.
      * apply in_app_or in Hx as [Hx|[<-|[]]]; [|apply tuple_le_refl].
        apply (tuple_lt_true_trans item best); [exact Hlt|].
        apply Hle. right. exact Hx.
    + split.
      * destruct Hin as [Hin|Hin]; [left; exact Hin|].
        right. apply in_or_app. left. exact Hin.
      * intros x [<-|Hx]; [apply Hle; left; reflexivity|].
        apply in_app_or in Hx as [Hx|[<-|[]]];
          [apply Hle; right; exact Hx | apply tuple_lt_false_le; exact Hlt].
Qed.

Lemma py_min_least_witness :
  py_min [(1, Some ([0; 1], [1; 1])); (2, None); (1, Some ([0; 0], [0; 1]))]
  = Ok (1, Some ([0; 0], [0; 1])) /\
  (In (1, Some ([0; 0], [0; 1]))
     [(1, Some ([0; 1], [1; 1])); (2, None); (1, Some ([0; 0], [0; 1]))] /\
   forall x,
     In x [(1, Some ([0; 1], [1; 1])); (2, None); (1, Some ([0; 0], [0; 1]))] ->
     tuple_le (1, Some ([0; 0], [0; 1])) x).
Proof.
  split; [reflexivity|].
  apply (py_min_least
           [(1, Some ([0; 1], [1; 1])); (2, None); (1, Some ([0; 0], [0; 1]))]).
  reflexivity.
Defined.

(** ** A grouping width larger than the vectors *)

Lemma lsh_widths_Ok_length (libm_log2 : float -> float) (v0 : vec)
  (rest : list vec) (num_of_lsh_bits log_n : Z) :
  lsh_widths libm_log2 (v0 :: rest) = Ok (num_of_lsh_bits, log_n) ->
  0 < len v0.
Proof.
  unfold lsh_widths. intros H.
  apply bind_Ok_inv in H as (k1 & _ & H).
  apply bind_Ok_inv in H as (k2 & Hlog & _).
  unfold log_n_of in Hlog. cbn [py_getitem nth_error bind] in Hlog.
  unfold math_log2_int in Hlog.
  destruct (Z.leb_spec (len v0) 0) as [Hle|Hlt]; [discriminate | exact Hlt].
Qed.

(** X17. When the grouping width computed from the number of vectors
    exceeds the length of the vectors (many short vectors), the LSH
    Aggregator with at least one round raises the [ValueError] of
    [np.random.choice], which refuses a sample larger than the population
    when drawing without replacement. *)
Theorem find_min_hamming_using_LSH_width_too_large
  (libm_log2 : float -> float) (v0 : vec) (rest : list vec)
  (iterations : Z) (t : tape) (num_of_lsh_bits log_n : Z) :
  lsh_widths libm_log2 (v0 :: rest) = Ok (num_of_lsh_bits, log_n) ->
  1 <= iterations ->
  len v0 < num_of_lsh_bits ->
  find_min_hamming_using_LSH libm_log2 (v0 :: rest) iterations t
  = Err (ValueError
           "Cannot take a larger sample than population when 'replace=False'"%string).
Proof.
  intros Hw Hit Hwide. pose proof (lsh_widths_Ok_length _ _ _ _ _ Hw) as Hpos.
  unfold find_min_hamming_using_LSH, bindM. rewrite Hw. cbn [lift].
  destruct (Z.to_nat iterations) as [|m] eqn:Em; [lia|].
  cbn [repeat_M]. unfold bindM at 1. unfold lsh_round at 1. unfold bindM at 1.
  unfold classify_vectors_by_random_bits, bindM.
  cbn [lift py_getitem nth_error]. unfold np_random_choice, raise.
  destruct (Z.leb_spec (len v0) 0) as [Hle|_]; [lia|]. cbn [andb].
  destruct (Z.ltb_spec (len v0) num_of_lsh_bits) as [_|Hge]; [|lia].
  reflexivity.
Qed.

Lemma find_min_hamming_using_LSH_width_too_large_witness :
  lsh_widths log2_ref
    ([0] :: [[1]; [0]; [1]; [0]; [1]; [0]; [1]; [0]; [1]]) = Ok (2, 0) /\
  1 <= 1 /\
  len [0] < 2 /\
  find_min_hamming_using_LSH log2_ref
    ([0] :: [[1]; [0]; [1]; [0]; [1]; [0]; [1]; [0]; [1]]) 1 (fun _ => [])
  = Err (ValueError
           "Cannot take a larger sample than population when 'replace=False'"%string).
Proof.
  assert (Hw : lsh_widths log2_ref
                 ([0] :: [[1]; [0]; [1]; [0]; [1]; [0]; [1]; [0]; [1]])
               = Ok (2, 0)) by (vm_compute; reflexivity).
  assert (Hit : 1 <= 1) by lia.
  assert (Hwide : len [0] < 2) by (unfold len; simpl; lia).
  split; [exact Hw|]. split; [exact Hit|]. split; [exact Hwide|].
  apply (find_min_hamming_using_LSH_width_too_large log2_ref [0] _ 1
           (fun _ => []) 2 0 Hw Hit Hwide).
Defined.
